(** * Green Hydrogen Credit ledger: a shallow embedding

    The development follows [blockchain/green_chain.py] (the hash-linked
    ledger with its certificate index and retired set) and the event history
    of [blockchain/realtime_chain.py].

    Conventions of the embedding.
    - Python [int] is [Z]; a Python [float] is carried by its [repr], the text
      that [json.dumps] prints for it ([JFloat]); no arithmetic is done on
      floats by the modelled functions.
    - Python [str] is [string], one character per code point below 256.
    - [hashlib.sha256] and [json.dumps(..., sort_keys=True)] are written out,
      so that every hash below is the one the program computes.
    - The clock ([time.time], [datetime.now]) and [uuid.uuid4] are inputs.
    - The body of [mine_block] is a [while] loop that may not terminate; it is
      run with a bound on the number of iterations, [None] meaning that the
      bound was reached.
    - The file at [storage_file] is the [storage] component of the state; it
      holds a well-formed document or nothing, and writing it succeeds (the
      [except] branches of [load_blockchain] and [save_blockchain] are those
      of a malformed file and of a failed write). *)

From Stdlib Require Import ZArith Ascii String.
From stdpp Require Import gmap strings list sorting pretty.

Local Open Scope Z_scope.

(** ** SHA-256 (FIPS 180-4), as used through [hashlib.sha256(..).hexdigest()] *)

Module SHA256.

Definition mask32 (x : Z) : Z := Z.land x 0xffffffff.
Definition add32 (x y : Z) : Z := mask32 (x + y).
Definition rotr (n x : Z) : Z :=
  mask32 (Z.lor (Z.shiftr x n) (Z.shiftl x (32 - n))).
Definition Ch (x y z : Z) : Z :=
  Z.lxor (Z.land x y) (Z.land (mask32 (Z.lnot x)) z).
Definition Maj (x y z : Z) : Z :=
  Z.lxor (Z.lxor (Z.land x y) (Z.land x z)) (Z.land y z).
Definition bsig0 (x : Z) : Z := Z.lxor (Z.lxor (rotr 2 x) (rotr 13 x)) (rotr 22 x).
Definition bsig1 (x : Z) : Z := Z.lxor (Z.lxor (rotr 6 x) (rotr 11 x)) (rotr 25 x).
Definition ssig0 (x : Z) : Z := Z.lxor (Z.lxor (rotr 7 x) (rotr 18 x)) (Z.shiftr x 3).
Definition ssig1 (x : Z) : Z := Z.lxor (Z.lxor (rotr 17 x) (rotr 19 x)) (Z.shiftr x 10).

(** The round constants are the first 32 bits of the fractional parts of the
    cube roots of the first 64 primes, the initial state those of the square
    roots of the first 8. *)
Definition is_prime (n : Z) : bool :=
  forallb (λ k, negb (n mod Z.of_nat k =? 0)) (seq 2 (Z.to_nat n - 2)).

Definition primes : list Z :=
  Eval vm_compute in List.filter is_prime (map Z.of_nat (seq 2 310)).

(** The integer [e]-th root of [n], found bit by bit below [2 ^ k]. *)
Fixpoint root_bits (e : Z) (k : nat) (n r : Z) : Z :=
  match k with
  | O => r
  | S k' =>
      let c := r + 2 ^ Z.of_nat k' in
      root_bits e k' n (if c ^ e <=? n then c else r)
  end.

Definition frac_root (e p : Z) : Z :=
  mask32 (root_bits e 40 (p * 2 ^ (32 * e)) 0).

Definition K : list Z := Eval vm_compute in map (frac_root 3) primes.

Definition H0 : list Z := Eval vm_compute in map (frac_root 2) (take 8 primes).

(** The [n] low bytes of [x], most significant first. *)
Definition be_bytes (n : nat) (x : Z) : list Z :=
  map (λ i, Z.land (Z.shiftr x (8 * Z.of_nat i)) 0xff) (rev (seq 0 n)).

(** Padding: the message, one byte [0x80], zeros up to 56 modulo 64, and the
    bit length on 8 bytes. *)
Definition pad (msg : list Z) : list Z :=
  let len := Z.of_nat (length msg) in
  msg ++ [0x80] ++ repeat 0 (Z.to_nat ((55 - len) mod 64)) ++ be_bytes 8 (8 * len).

Fixpoint words (fuel : nat) (bs : list Z) : list Z :=
  match fuel, bs with
  | S f, a :: b :: c :: d :: r =>
      (Z.shiftl a 24 + Z.shiftl b 16 + Z.shiftl c 8 + d) :: words f r
  | _, _ => []
  end.

(** The message schedule is grown newest word first: position [i] of [w]
    holds [W(t-1-i)]. *)
Fixpoint extend (n : nat) (w : list Z) : list Z :=
  match n with
  | O => w
  | S n' =>
      let g i := nth i w 0 in
      extend n' (add32 (add32 (ssig1 (g 1%nat)) (g 6%nat))
                       (add32 (ssig0 (g 14%nat)) (g 15%nat)) :: w)
  end.
Definition schedule (block : list Z) : list Z := rev (extend 48 (rev block)).

Definition round (st : list Z) (kw : Z * Z) : list Z :=
  match st with
  | [a; b; c; d; e; f; g; h] =>
      let t1 := add32 (add32 (add32 h (bsig1 e)) (add32 (Ch e f g) kw.1)) kw.2 in
      let t2 := add32 (bsig0 a) (Maj a b c) in
      [add32 t1 t2; a; b; c; add32 d t1; e; f; g]
  | _ => st
  end.

Definition compress (h : list Z) (block : list Z) : list Z :=
  zip_with add32 h (fold_left round (combine K (schedule block)) h).

Fixpoint blocks (fuel : nat) (ws : list Z) : list (list Z) :=
  match fuel with
  | O => []
  | S f => match ws with [] => [] | _ => take 16 ws :: blocks f (drop 16 ws) end
  end.

Definition digest (msg : list Z) : list Z :=
  let bs := pad msg in
  let ws := words (length bs) bs in
  fold_left compress (blocks (length ws) ws) H0.

Definition hex_digit (n : Z) : ascii :=
  ascii_of_nat (Z.to_nat (if n <? 10 then 48 + n else 87 + n)).
Definition hex_word (w : Z) : string :=
  string_of_list_ascii
    (map (λ i, hex_digit (Z.land (Z.shiftr w (4 * Z.of_nat i)) 0xf)) (rev (seq 0 8))).

(** [s.encode()] on text that [json.dumps] has made pure ASCII. *)
Definition encode (s : string) : list Z :=
  map (λ c, Z.of_nat (nat_of_ascii c)) (list_ascii_of_string s).

Definition hexdigest (s : string) : string :=
  foldr (λ w acc, hex_word w +:+ acc) EmptyString (digest (encode s)).

End SHA256.

(** ** JSON values and [json.dumps(.., sort_keys=True)] *)

(** The values that the ledger stores in a block payload are scalars. *)
Inductive jvalue : Type :=
  | JNull
  | JBool (b : bool)
  | JInt (n : Z)
  | JFloat (repr : string)
  | JStr (s : string).

Global Instance jvalue_eq_dec : EqDecision jvalue.
Proof. solve_decision. Defined.

Definition jvalue_code (v : jvalue) : unit + bool + Z + string + string :=
  match v with
  | JNull => inl (inl (inl (inl ())))
  | JBool b => inl (inl (inl (inr b)))
  | JInt n => inl (inl (inr n))
  | JFloat r => inl (inr r)
  | JStr s => inr s
  end.

Definition jvalue_decode (c : unit + bool + Z + string + string) : jvalue :=
  match c with
  | inl (inl (inl (inl _))) => JNull
  | inl (inl (inl (inr b))) => JBool b
  | inl (inl (inr n)) => JInt n
  | inl (inr r) => JFloat r
  | inr s => JStr s
  end.

Global Instance jvalue_countable : Countable jvalue.
Proof.
  apply (inj_countable' jvalue_code jvalue_decode).
  by intros [].
Defined.

(** A Python [dict] with string keys whose order is never observed. *)
Abbreviation dict := (gmap string jvalue).

(** [d.get(k)]: the value, or [None]. *)
Definition dict_get (d : dict) (k : string) : jvalue := default JNull (d !! k).

Module Json.

Definition hex4 (n : Z) : string :=
  string_of_list_ascii
    (map (λ i, SHA256.hex_digit (Z.land (Z.shiftr n (4 * Z.of_nat i)) 0xf))
         (rev (seq 0 4))).

(** [json.encoder.py_encode_basestring_ascii]: everything outside the range
    from space to tilde is escaped, as are the quote and the backslash. *)
Definition dquote : string := String (ascii_of_nat 34) EmptyString.

Definition escape_char (c : ascii) : string :=
  let n := Z.of_nat (nat_of_ascii c) in
  if n =? 34 then "\" +:+ dquote
  else if n =? 92 then "\\"
  else if n =? 10 then "\n"
  else if n =? 13 then "\r"
  else if n =? 9 then "\t"
  else if n =? 12 then "\f"
  else if n =? 8 then "\b"
  else if (32 <=? n) && (n <=? 126) then String c EmptyString
  else "\u" +:+ hex4 n.

Fixpoint escape (s : string) : string :=
  match s with
  | EmptyString => EmptyString
  | String c r => escape_char c +:+ escape r
  end.

Definition quote (s : string) : string := dquote +:+ escape s +:+ dquote.

Definition dumps_value (v : jvalue) : string :=
  match v with
  | JNull => "null"
  | JBool true => "true"
  | JBool false => "false"
  | JInt n => pretty n
  | JFloat r => r
  | JStr s => quote s
  end.

Definition key_le (x y : string * jvalue) : Prop := String.leb x.1 y.1.

Fixpoint join_items (l : list (string * jvalue)) : string :=
  match l with
  | [] => EmptyString
  | [(k, v)] => quote k +:+ ": " +:+ dumps_value v
  | (k, v) :: r => quote k +:+ ": " +:+ dumps_value v +:+ ", " +:+ join_items r
  end.

(** A dictionary, keys in increasing order. *)
Definition dumps_dict (d : dict) : string :=
  "{" +:+ join_items (merge_sort key_le (map_to_list d)) +:+ "}".

End Json.

(** ** Blocks *)

(** [class Block]: every attribute is assigned in [__init__]; [hash] is
    stored, it is not a property. *)
Record Block : Type := mkBlock {
  index : Z;
  timestamp : jvalue;
  data : dict;
  previous_hash : string;
  nonce : Z;
  hash : string
}.

(** The text hashed by [calculate_hash]: the five hashed attributes under
    their names, keys sorted ([data], [index], [nonce], [previous_hash],
    [timestamp]). *)
Definition block_string (b : Block) : string :=
  "{" +:+ Json.quote "data" +:+ ": " +:+ Json.dumps_dict (data b) +:+ ", "
      +:+ Json.quote "index" +:+ ": " +:+ pretty (index b) +:+ ", "
      +:+ Json.quote "nonce" +:+ ": " +:+ pretty (nonce b) +:+ ", "
      +:+ Json.quote "previous_hash" +:+ ": " +:+ Json.quote (previous_hash b) +:+ ", "
      +:+ Json.quote "timestamp" +:+ ": " +:+ Json.dumps_value (timestamp b) +:+ "}".

Definition calculate_hash (b : Block) : string :=
  SHA256.hexdigest (block_string b).

(** [Block(index, timestamp, data, previous_hash, nonce)] *)
Definition new_Block (i : Z) (t : jvalue) (d : dict) (p : string) (n : Z) : Block :=
  let b := mkBlock i t d p n EmptyString in
  mkBlock i t d p n (calculate_hash b).

Definition set_nonce (n : Z) (b : Block) : Block :=
  mkBlock (index b) (timestamp b) (data b) (previous_hash b) n (hash b).
Definition set_hash (h : string) (b : Block) : Block :=
  mkBlock (index b) (timestamp b) (data b) (previous_hash b) (nonce b) h.
Definition set_data (d : dict) (b : Block) : Block :=
  mkBlock (index b) (timestamp b) d (previous_hash b) (nonce b) (hash b).
Definition set_previous_hash (p : string) (b : Block) : Block :=
  mkBlock (index b) (timestamp b) (data b) p (nonce b) (hash b).

(** ** Python results, sequences and insertion-ordered dictionaries *)

Inductive exn : Type :=
  | IndexError
  | KeyError (k : string)
  | Exception (msg : string).

Inductive result (A : Type) : Type :=
  | Ok (a : A)
  | Raise (e : exn).
Arguments Ok {A} a.
Arguments Raise {A} e.

(** [l[i]], a negative [i] counting from the end. *)
Definition py_getitem {A} (l : list A) (i : Z) : result A :=
  let j := if i <? 0 then Z.of_nat (length l) + i else i in
  match (if 0 <=? j then l !! Z.to_nat j else None) with
  | Some x => Ok x
  | None => Raise IndexError
  end.

(** [l[k:]] *)
Definition py_slice_from {A} (k : Z) (l : list A) : list A :=
  let start := if k <? 0 then Z.max (Z.of_nat (length l) + k) 0 else k in
  drop (Z.to_nat start) l.

(** [c * n] on strings; nothing is left when [n] is not positive. *)
Definition py_repeat (c : string) (n : Z) : string :=
  Nat.iter (Z.to_nat n) (λ acc, c +:+ acc) EmptyString.

(** A [dict] whose iteration order is observed: the items in insertion
    order, each key once. *)
Section odict.
Context {K V : Type} `{EqDecision K}.

Fixpoint od_lookup (k : K) (l : list (K * V)) : option V :=
  match l with
  | [] => None
  | (k', v) :: r => if decide (k = k') then Some v else od_lookup k r
  end.

(** [d[k] = v]: a present key keeps its place. *)
Fixpoint od_set (k : K) (v : V) (l : list (K * V)) : list (K * V) :=
  match l with
  | [] => [(k, v)]
  | (k', v') :: r =>
      if decide (k = k') then (k, v) :: r else (k', v') :: od_set k v r
  end.

(** [d[k]] mutated in place by [f]. *)
Fixpoint od_alter (f : V → V) (k : K) (l : list (K * V)) : list (K * V) :=
  match l with
  | [] => []
  | (k', v) :: r =>
      if decide (k = k') then (k', f v) :: r else (k', v) :: od_alter f k r
  end.

(** [k in d] *)
Definition od_mem (k : K) (l : list (K * V)) : bool :=
  bool_decide (is_Some (od_lookup k l)).
End odict.

(** ** The ledger state *)

(** A value of [self.certificates]. *)
Record CertInfo : Type := mkCertInfo {
  ci_hash : string;
  ci_block_index : Z;
  ci_data : dict;
  ci_status : string
}.

Definition set_status (st : string) (c : CertInfo) : CertInfo :=
  mkCertInfo (ci_hash c) (ci_block_index c) (ci_data c) st.

(** What [Block.to_dict] returns and what the loaders read back. *)
Record BlockDict : Type := mkBlockDict {
  d_index : Z;
  d_timestamp : jvalue;
  d_data : dict;
  d_previous_hash : string;
  d_nonce : Z;
  d_hash : string
}.

Definition to_dict (b : Block) : BlockDict :=
  mkBlockDict (index b) (timestamp b) (data b) (previous_hash b) (nonce b) (hash b).

(** The loop body shared by [load_blockchain] and [import_chain]: the
    constructor hashes the block, then the stored hash is put in its place. *)
Definition block_of_dict (bd : BlockDict) : Block :=
  set_hash (d_hash bd)
    (new_Block (d_index bd) (d_timestamp bd) (d_data bd) (d_previous_hash bd) (d_nonce bd)).

(** The persisted document; [last_updated] and the three totals that
    [save_blockchain] also writes are never read back. *)
Record Document : Type := mkDocument {
  doc_chain : list BlockDict;
  doc_certificates : list (jvalue * CertInfo);
  doc_retired_certificates : list jvalue
}.

Record GreenChain : Type := mkGreenChain {
  chain : list Block;
  difficulty : Z;
  certificates : list (jvalue * CertInfo);
  retired_certificates : gset jvalue;
  storage : option Document
}.

Definition set_chain (c : list Block) (s : GreenChain) : GreenChain :=
  mkGreenChain c (difficulty s) (certificates s) (retired_certificates s) (storage s).
Definition set_certificates (c : list (jvalue * CertInfo)) (s : GreenChain) : GreenChain :=
  mkGreenChain (chain s) (difficulty s) c (retired_certificates s) (storage s).
Definition set_retired_certificates (r : gset jvalue) (s : GreenChain) : GreenChain :=
  mkGreenChain (chain s) (difficulty s) (certificates s) r (storage s).
Definition set_storage (d : option Document) (s : GreenChain) : GreenChain :=
  mkGreenChain (chain s) (difficulty s) (certificates s) (retired_certificates s) d.

(** ** Persistence *)

Definition save_blockchain (s : GreenChain) : GreenChain :=
  set_storage
    (Some (mkDocument (map to_dict (chain s)) (certificates s)
                      (elements (retired_certificates s)))) s.

Definition load_blockchain (s : GreenChain) : GreenChain :=
  match storage s with
  | Some doc =>
      set_retired_certificates (list_to_set (doc_retired_certificates doc))
        (set_certificates (doc_certificates doc)
           (set_chain (map block_of_dict (doc_chain doc)) s))
  | None => s
  end.

Definition genesis_data (now : string) : dict :=
  <["type" := JStr "genesis"]>
  (<["message" := JStr "Green Hydrogen Credit Blockchain Simulator - Genesis Block"]>
  (<["timestamp" := JStr now]>
  (<["version" := JStr "1.0"]>
  (<["description" :=
      JStr "This is a simple blockchain simulation for demonstration purposes"]> ∅)))).

(** [now] is [datetime.now(timezone.utc).isoformat()], [t] the [repr] of
    [time.time()]. *)
Definition create_genesis_block (s : GreenChain) (now t : string) : GreenChain :=
  let genesis_block := new_Block 0 (JFloat t) (genesis_data now) "0" 0 in
  save_blockchain (set_chain (chain s ++ [genesis_block]) s).

(** [GreenChain(difficulty, storage_file)], [disk] being what the file holds. *)
Definition GreenChain_init (d : Z) (disk : option Document) (now t : string)
  : GreenChain :=
  let s := load_blockchain (mkGreenChain [] d [] ∅ disk) in
  match chain s with
  | [] => create_genesis_block s now t
  | _ => s
  end.

(** ** Mining and validation *)

Definition get_latest_block (s : GreenChain) : option Block := last (chain s).

(** [h.startswith('0' * difficulty)] *)
Definition pow_ok (d : Z) (h : string) : bool := String.prefix (py_repeat "0" d) h.

Definition next_nonce (b : Block) : Block :=
  let b' := set_nonce (nonce b + 1) b in
  set_hash (calculate_hash b') b'.

Fixpoint mine_loop (fuel : nat) (d : Z) (b : Block) : option Block :=
  if pow_ok d (hash b) then Some b
  else match fuel with
       | O => None
       | S f => mine_loop f d (next_nonce b)
       end.

Definition mine_block (s : GreenChain) (fuel : nat) (t : string) (payload : dict)
  : option Block :=
  let previous_block := get_latest_block s in
  let new_index := match previous_block with Some p => index p + 1 | None => 0 end in
  let prev_hash := match previous_block with Some p => hash p | None => "0" end in
  mine_loop fuel (difficulty s) (new_Block new_index (JFloat t) payload prev_hash 0).

Definition is_valid_block (s : GreenChain) (b : Block) : result bool :=
  if index b =? 0 then Ok true
  else if index b - 1 >=? Z.of_nat (length (chain s)) then Ok false
  else match py_getitem (chain s) (index b - 1) with
       | Raise e => Raise e
       | Ok previous_block =>
           if bool_decide (previous_hash b ≠ hash previous_block) then Ok false
           else if bool_decide (hash b ≠ calculate_hash b) then Ok false
           else if negb (pow_ok (difficulty s) (hash b)) then Ok false
           else Ok true
       end.

Definition add_block (s : GreenChain) (b : Block) : result bool * GreenChain :=
  match is_valid_block s b with
  | Ok true => (Ok true, save_blockchain (set_chain (chain s ++ [b]) s))
  | Ok false => (Ok false, s)
  | Raise e => (Raise e, s)
  end.

(** The loop of [is_chain_valid] over [chain[1:]]. *)
Fixpoint all_valid (s : GreenChain) (bs : list Block) : result bool :=
  match bs with
  | [] => Ok true
  | current_block :: r =>
      match is_valid_block s current_block with
      | Ok true => all_valid s r
      | Ok false => Ok false
      | Raise e => Raise e
      end
  end.

Definition is_chain_valid (s : GreenChain) : result bool :=
  all_valid s (drop 1 (chain s)).

(** ** The certificate lifecycle *)

(** [uuid] is [str(uuid.uuid4())], [now] the issuance time in ISO format. *)
Definition certificate_data (uuid now : string) (d : dict) : dict :=
  <["type" := JStr "hydrogen_credit_certificate"]>
  (<["certificate_id" := JStr uuid]>
  (<["seller_id" := dict_get d "seller_id"]>
  (<["facility_name" := dict_get d "facility_name"]>
  (<["hydrogen_weight_kg" := dict_get d "hydrogen_weight_kg"]>
  (<["tokens_generated" := dict_get d "tokens_generated"]>
  (<["renewable_source" := dict_get d "renewable_source"]>
  (<["production_date" := dict_get d "production_date"]>
  (<["location" := dict_get d "location"]>
  (<["certification_type" := dict_get d "certification_type"]>
  (<["price_per_token" := dict_get d "price_per_token"]>
  (<["status" := JStr "issued"]>
  (<["issued_at" := JStr now]>
  (<["blockchain_version" := JStr "1.0"]> ∅))))))))))))).

Definition duplicate_id : exn :=
  Exception "Certificate ID already exists - duplicate detected".
Definition add_failed : exn :=
  Exception "Failed to add certificate block to blockchain".

(** [t] is the [repr] of the [time.time()] read by [mine_block]. The outcome
    is [None] when mining is still running after [fuel] iterations. *)
Definition issue_certificate (s : GreenChain) (fuel : nat) (uuid now t : string)
    (d : dict) : option (result string * GreenChain) :=
  let certificate_id := JStr uuid in
  if od_mem certificate_id (certificates s) then Some (Raise duplicate_id, s)
  else
    let payload := certificate_data uuid now d in
    match mine_block s fuel t payload with
    | None => None
    | Some new_block =>
        match add_block s new_block with
        | (Ok true, s1) =>
            Some (Ok (hash new_block),
                  set_certificates
                    (od_set certificate_id
                       (mkCertInfo (hash new_block) (index new_block) payload "active")
                       (certificates s1)) s1)
        | (Ok false, s1) => Some (Raise add_failed, s1)
        | (Raise e, s1) => Some (Raise e, s1)
        end
    end.

Definition error_dict (msg : string) : dict := {["error" := JStr msg]}.
Definition retired_error : dict :=
  <["error" := JStr "Certificate has been retired/used"]>
  (<["status" := JStr "retired"]> ∅).

(** The checks made once the certificate entry is at hand; they are the same
    in [verify_certificate] and [verify_certificate_by_id]. *)
Definition verify_entry (s : GreenChain) (cert_id : jvalue) (cert_info : CertInfo)
    (expected : string) : result (bool * dict) :=
  if bool_decide (cert_id ∈ retired_certificates s) then Ok (false, retired_error)
  else if ci_block_index cert_info <? Z.of_nat (length (chain s)) then
    match py_getitem (chain s) (ci_block_index cert_info) with
    | Raise e => Raise e
    | Ok block =>
        if bool_decide (hash block = expected) then Ok (true, ci_data cert_info)
        else Ok (false, error_dict "Certificate not found in blockchain")
    end
  else Ok (false, error_dict "Certificate not found in blockchain").

Fixpoint verify_loop (s : GreenChain) (certificate_hash : string)
    (items : list (jvalue * CertInfo)) : result (bool * dict) :=
  match items with
  | [] => Ok (false, error_dict "Certificate not found")
  | (cert_id, cert_info) :: r =>
      if bool_decide (ci_hash cert_info = certificate_hash)
      then verify_entry s cert_id cert_info certificate_hash
      else verify_loop s certificate_hash r
  end.

Definition verify_certificate (s : GreenChain) (certificate_hash : string)
  : result (bool * dict) :=
  verify_loop s certificate_hash (certificates s).

Definition verify_certificate_by_id (s : GreenChain) (certificate_id : jvalue)
  : result (bool * dict) :=
  match od_lookup certificate_id (certificates s) with
  | None => Ok (false, error_dict "Certificate ID not found")
  | Some cert_info => verify_entry s certificate_id cert_info (ci_hash cert_info)
  end.

Definition retirement_data (cert_id : jvalue) (certificate_hash now : string) : dict :=
  <["type" := JStr "certificate_retirement"]>
  (<["certificate_id" := cert_id]>
  (<["original_hash" := JStr certificate_hash]>
  (<["retired_at" := JStr now]>
  (<["status" := JStr "retired"]>
  (<["reason" := JStr "Certificate used for credit purchase"]> ∅))))).

(** [self.retired_certificates.add(cert_id)] followed by
    [self.certificates[cert_id]['status'] = 'retired']. *)
Definition mark_retired (cert_id : jvalue) (s : GreenChain) : GreenChain :=
  set_certificates (od_alter (set_status "retired") cert_id (certificates s))
    (set_retired_certificates ({[cert_id]} ∪ retired_certificates s) s).

(** The body run for the first entry whose hash is the queried one: the marks
    are set before the retirement block is mined. *)
Definition retire_entry (s : GreenChain) (fuel : nat) (now t : string)
    (cert_id : jvalue) (certificate_hash : string)
  : option (result bool * GreenChain) :=
  if bool_decide (cert_id ∈ retired_certificates s) then Some (Ok false, s)
  else
    let s1 := mark_retired cert_id s in
    match mine_block s1 fuel t (retirement_data cert_id certificate_hash now) with
    | None => None
    | Some retirement_block =>
        match add_block s1 retirement_block with
        | (Ok true, s2) => Some (Ok true, s2)
        | (Ok false, s2) => Some (Ok false, s2)
        | (Raise e, s2) => Some (Raise e, s2)
        end
    end.

Fixpoint retire_loop (s : GreenChain) (fuel : nat) (now t : string)
    (certificate_hash : string) (items : list (jvalue * CertInfo))
  : option (result bool * GreenChain) :=
  match items with
  | [] => Some (Ok false, s)
  | (cert_id, cert_info) :: r =>
      if bool_decide (ci_hash cert_info = certificate_hash)
      then retire_entry s fuel now t cert_id certificate_hash
      else retire_loop s fuel now t certificate_hash r
  end.

Definition retire_certificate (s : GreenChain) (fuel : nat) (now t : string)
    (certificate_hash : string) : option (result bool * GreenChain) :=
  retire_loop s fuel now t certificate_hash (certificates s).

(** ** Export and import *)

Definition export_chain (s : GreenChain) : list BlockDict := map to_dict (chain s).

(** One iteration of the loop that rebuilds the two indices; [block.data[k]]
    raises [KeyError] when the key is absent. *)
Definition rebuild_step (s : GreenChain) (block : Block) : result unit * GreenChain :=
  if bool_decide (dict_get (data block) "type" = JStr "hydrogen_credit_certificate") then
    match data block !! "certificate_id" with
    | None => (Raise (KeyError "certificate_id"), s)
    | Some cert_id =>
        (Ok (), set_certificates
                  (od_set cert_id
                     (mkCertInfo (hash block) (index block) (data block) "active")
                     (certificates s)) s)
    end
  else if bool_decide (dict_get (data block) "type" = JStr "certificate_retirement") then
    match data block !! "certificate_id" with
    | None => (Raise (KeyError "certificate_id"), s)
    | Some cert_id =>
        let s1 := set_retired_certificates ({[cert_id]} ∪ retired_certificates s) s in
        (Ok (), if od_mem cert_id (certificates s1)
                then set_certificates
                       (od_alter (set_status "retired") cert_id (certificates s1)) s1
                else s1)
    end
  else (Ok (), s).

Fixpoint rebuild (s : GreenChain) (bs : list Block) : result unit * GreenChain :=
  match bs with
  | [] => (Ok (), s)
  | block :: r =>
      match rebuild_step s block with
      | (Ok _, s1) => rebuild s1 r
      | (Raise e, s1) => (Raise e, s1)
      end
  end.

(** Any exception is caught and turned into [False]; what was assigned before
    it stays assigned. *)
Definition import_chain (s : GreenChain) (chain_data : list BlockDict)
  : bool * GreenChain :=
  let s1 := set_chain (map block_of_dict chain_data) s in
  let s2 := set_retired_certificates ∅ (set_certificates [] s1) in
  match rebuild s2 (chain s2) with
  | (Ok _, s3) => (true, save_blockchain s3)
  | (Raise _, s3) => (false, s3)
  end.

(** ** The event history of [RealTimeBlockchain] *)

Module RealTime.

(** An event as the [emit_*] methods build it; [ev_type] is what
    [event.get('type')] returns. *)
Record Event : Type := mkEvent {
  ev_type : jvalue;
  ev_timestamp : string;
  ev_data : dict;
  ev_room : jvalue
}.

(** An entry of [self.blockchain_events]. *)
Record EventRecord : Type := mkEventRecord {
  er_timestamp : string;
  er_event : Event
}.

(** What [_broadcast_event] does to the history once the event is emitted:
    the record is appended and the last 1000 are kept. *)
Definition broadcast_event (now : string) (event : Event)
    (blockchain_events : list EventRecord) : list EventRecord :=
  let events := blockchain_events ++ [mkEventRecord now event] in
  if 1000 <? Z.of_nat (length events) then py_slice_from (-1000) events else events.

(** The filter is applied when [event_type] is true: a [str] is true unless
    it is empty, [None] is false. *)
Definition get_event_history (blockchain_events : list EventRecord)
    (event_type : option string) (limit : Z) : list EventRecord :=
  let events :=
    match event_type with
    | Some (String c r) =>
        List.filter (λ e, bool_decide (ev_type (er_event e) = JStr (String c r)))
                    blockchain_events
    | Some EmptyString | None => blockchain_events
    end in
  match events with
  | [] => []
  | _ => py_slice_from (- limit) events
  end.

(** The [k] last elements of a list. *)
Definition last_n {A} (k : nat) (l : list A) : list A := drop (length l - k) l.

End RealTime.

(** ** Notions used by the statements *)

(** The block that the loop of [mine_block] holds after [k] iterations. *)
Definition candidate (s : GreenChain) (t : string) (payload : dict) (k : nat) : Block :=
  let previous_block := get_latest_block s in
  let new_index := match previous_block with Some p => index p + 1 | None => 0 end in
  let prev_hash := match previous_block with Some p => hash p | None => "0" end in
  Nat.iter k next_nonce (new_Block new_index (JFloat t) payload prev_hash 0).

(** Nonce [k] seals the payload on the current tip. *)
Definition solves (s : GreenChain) (t : string) (payload : dict) (k : nat) : Prop :=
  pow_ok (difficulty s) (hash (candidate s t payload k)) = true.

(** No recorded certificate already carries the hash [h]. *)
Definition hash_unused (s : GreenChain) (h : string) : Prop :=
  ∀ k ci, (k, ci) ∈ certificates s → ci_hash ci ≠ h.

(** The first entry, in iteration order, recorded under the hash [h]. *)
Fixpoint find_by_hash (h : string) (items : list (jvalue * CertInfo))
  : option (jvalue * CertInfo) :=
  match items with
  | [] => None
  | (k, ci) :: r => if bool_decide (ci_hash ci = h) then Some (k, ci) else find_by_hash h r
  end.

(** The number of ['0'] characters a string starts with. *)
Fixpoint leading_zeros (h : string) : nat :=
  match h with
  | String c r => if bool_decide (c = "0"%char) then S (leading_zeros r) else O
  | EmptyString => O
  end.

(** The states of a ledger that starts without a persisted document and on
    which [issue_certificate] and [retire_certificate] are called, whatever
    they return. *)
Inductive reachable : GreenChain → Prop :=
  | reach_fresh d now t :
      reachable (GreenChain_init d None now t)
  | reach_issue s fuel uuid now t payload r s' :
      reachable s →
      issue_certificate s fuel uuid now t payload = Some (r, s') →
      reachable s'
  | reach_retire s fuel now t h r s' :
      reachable s →
      retire_certificate s fuel now t h = Some (r, s') →
      reachable s'.

(** [later s s']: the state [s'] is reached from [s] by further calls. *)
Inductive later (s : GreenChain) : GreenChain → Prop :=
  | later_refl : later s s
  | later_issue s1 fuel uuid now t payload r s2 :
      later s s1 →
      issue_certificate s1 fuel uuid now t payload = Some (r, s2) →
      later s s2
  | later_retire s1 fuel now t h r s2 :
      later s s1 →
      retire_certificate s1 fuel now t h = Some (r, s2) →
      later s s2.

(** The chain as [mine_block] and [add_block] leave it. *)
Record chain_wf (s : GreenChain) : Prop := mk_chain_wf {
  wf_genesis : is_Some (chain s !! 0%nat);
  wf_index : ∀ i b, chain s !! i = Some b → index b = Z.of_nat i;
  wf_hash : ∀ i b, chain s !! i = Some b → hash b = calculate_hash b;
  wf_link : ∀ i p b, chain s !! i = Some p → chain s !! S i = Some b →
            previous_hash b = hash p ∧ pow_ok (difficulty s) (hash b) = true
}.

Definition clear_indices (s : GreenChain) : GreenChain :=
  set_retired_certificates ∅ (set_certificates [] s).

(** The two indices as caches over the block log, and the file as a copy of
    the chain. *)
Record index_wf (s : GreenChain) : Prop := mk_index_wf {
  wf_replay : rebuild (clear_indices s) (chain s) = (Ok (), s);
  wf_retired : ∀ k, k ∈ retired_certificates s → od_mem k (certificates s) = true;
  wf_storage : doc_chain <$> storage s = Some (map to_dict (chain s))
}.

(** Edits of the persisted document: one block gets another payload or
    another [previous_hash], its stored [hash] staying as it is. *)
Definition bd_set_data (d : dict) (bd : BlockDict) : BlockDict :=
  mkBlockDict (d_index bd) (d_timestamp bd) d (d_previous_hash bd) (d_nonce bd) (d_hash bd).
Definition bd_set_previous_hash (p : string) (bd : BlockDict) : BlockDict :=
  mkBlockDict (d_index bd) (d_timestamp bd) (d_data bd) p (d_nonce bd) (d_hash bd).

Inductive mutation : Type :=
  | SetData (payload : dict)
  | SetPreviousHash (p : string).

Definition mutate (m : mutation) (bd : BlockDict) : BlockDict :=
  match m with
  | SetData payload => bd_set_data payload bd
  | SetPreviousHash p => bd_set_previous_hash p bd
  end.

Definition tamper (m : mutation) (i : nat) (doc : Document) : Document :=
  mkDocument (alter (mutate m) i (doc_chain doc)) (doc_certificates doc)
             (doc_retired_certificates doc).

(** The mutation changes what is validated: another [previous_hash], or a
    payload under which the block no longer hashes to its stored hash (any
    other payload does, short of a SHA-256 collision). *)
Definition effective (m : mutation) (bd : BlockDict) : Prop :=
  match m with
  | SetData payload => calculate_hash (block_of_dict (bd_set_data payload bd)) ≠ d_hash bd
  | SetPreviousHash p => p ≠ d_previous_hash bd
  end.

(** The state [s] with another chain, difficulty and file. *)
Definition reframe (c : list Block) (d : Z) (st : option Document) (s : GreenChain)
  : GreenChain :=
  mkGreenChain c d (certificates s) (retired_certificates s) st.

(** The keys that [issue_certificate] reads from its argument. *)
Definition certificate_fields : list string :=
  ["seller_id"; "facility_name"; "hydrogen_weight_kg"; "tokens_generated";
   "renewable_source"; "production_date"; "location"; "certification_type";
   "price_per_token"].

(** What the nonce search leaves untouched. *)
Record same_content (b b' : Block) : Prop := mk_same_content {
  sc_index : index b' = index b;
  sc_timestamp : timestamp b' = timestamp b;
  sc_data : data b' = data b;
  sc_previous_hash : previous_hash b' = previous_hash b
}.


(** ** Read-only queries of the ledger *)

Fixpoint status_loop (s : GreenChain) (certificate_hash : string)
    (items : list (jvalue * CertInfo)) : string :=
  match items with
  | [] => "not_found"
  | (cert_id, cert_info) :: r =>
      if bool_decide (ci_hash cert_info = certificate_hash)
      then (if bool_decide (cert_id ∈ retired_certificates s) then "retired" else "active")
      else status_loop s certificate_hash r
  end.

Definition get_certificate_status (s : GreenChain) (certificate_hash : string) : string :=
  status_loop s certificate_hash (certificates s).

(** The dictionary returned by [get_certificate_by_hash]. *)
Record CertView : Type := mkCertView {
  cv_certificate_id : jvalue;
  cv_hash : string;
  cv_data : dict;
  cv_status : string
}.

Fixpoint by_hash_loop (s : GreenChain) (certificate_hash : string)
    (items : list (jvalue * CertInfo)) : option CertView :=
  match items with
  | [] => None
  | (cert_id, cert_info) :: r =>
      if bool_decide (ci_hash cert_info = certificate_hash)
      then Some (mkCertView cert_id (ci_hash cert_info) (ci_data cert_info)
                   (if bool_decide (cert_id ∈ retired_certificates s)
                    then "retired" else "active"))
      else by_hash_loop s certificate_hash r
  end.

Definition get_certificate_by_hash (s : GreenChain) (certificate_hash : string)
  : option CertView :=
  by_hash_loop s certificate_hash (certificates s).

Definition get_chain (s : GreenChain) : list BlockDict := map to_dict (chain s).

(** The dictionary returned by [get_chain_info], but for [storage_file], the
    path that is echoed; [now] is the clock reading of [last_updated]. *)
Record ChainInfo : Type := mkChainInfo {
  total_blocks : Z;
  total_certificates : Z;
  count_retired : Z;
  active_certificates : Z;
  info_difficulty : Z;
  last_block_hash : option string;
  chain_valid : bool;
  last_updated : string
}.

Definition get_chain_info (s : GreenChain) (now : string) : result ChainInfo :=
  match is_chain_valid s with
  | Raise e => Raise e
  | Ok valid =>
      Ok (mkChainInfo
            (Z.of_nat (length (chain s)))
            (Z.of_nat (length (certificates s)))
            (Z.of_nat (size (retired_certificates s)))
            (Z.of_nat (length (certificates s))
             - Z.of_nat (size (retired_certificates s)))
            (difficulty s)
            (hash <$> get_latest_block s)
            valid
            now)
  end.

Definition issued_entry (cert_info : CertInfo) (issued_at : jvalue) : dict :=
  <["action" := JStr "issued"]>
  (<["timestamp" := issued_at]>
  (<["hash" := JStr (ci_hash cert_info)]>
  (<["block_index" := JInt (ci_block_index cert_info)]> ∅))).

Definition retired_entry (block : Block) (retired_at : jvalue) : dict :=
  <["action" := JStr "retired"]>
  (<["timestamp" := retired_at]>
  (<["hash" := JStr (hash block)]>
  (<["block_index" := JInt (index block)]>
  (<["reason" := default (JStr "Unknown") (data block !! "reason")]> ∅)))).

(** The search for the retirement block in [get_certificate_history]; it
    stops at the first match, whose [retired_at] is read with [data[..]]. *)
Fixpoint retirement_loop (certificate_id : jvalue) (bs : list Block)
  : result (list dict) :=
  match bs with
  | [] => Ok []
  | block :: r =>
      if bool_decide (dict_get (data block) "type" = JStr "certificate_retirement")
         && bool_decide (dict_get (data block) "certificate_id" = certificate_id)
      then match data block !! "retired_at" with
           | Some retired_at => Ok [retired_entry block retired_at]
           | None => Raise (KeyError "retired_at")
           end
      else retirement_loop certificate_id r
  end.

Definition get_certificate_history (s : GreenChain) (certificate_id : jvalue)
  : result (list dict) :=
  match od_lookup certificate_id (certificates s) with
  | None => Ok []
  | Some cert_info =>
      match ci_data cert_info !! "issued_at" with
      | None => Raise (KeyError "issued_at")
      | Some issued_at =>
          if bool_decide (certificate_id ∈ retired_certificates s)
          then match retirement_loop certificate_id (chain s) with
               | Ok tail => Ok (issued_entry cert_info issued_at :: tail)
               | Raise e => Raise e
               end
          else Ok [issued_entry cert_info issued_at]
      end
  end.

Definition reset_blockchain (s : GreenChain) (now t : string) : GreenChain :=
  create_genesis_block
    (set_retired_certificates ∅ (set_certificates [] (set_chain [] s))) now t.

(** ** Notions used by the further statements *)

(** The identifiers of the issuance blocks, and of the retirement blocks, of
    a chain, in chain order. *)
Definition issued_ids (c : list Block) : list jvalue :=
  omap (λ b, if bool_decide (dict_get (data b) "type" = JStr "hydrogen_credit_certificate")
             then Some (dict_get (data b) "certificate_id") else None) c.

Definition retired_ids (c : list Block) : list jvalue :=
  omap (λ b, if bool_decide (dict_get (data b) "type" = JStr "certificate_retirement")
             then Some (dict_get (data b) "certificate_id") else None) c.

(** The three payloads that the ledger writes. *)
Inductive payload_shape : dict → Prop :=
  | shape_genesis now : payload_shape (genesis_data now)
  | shape_issued uuid now d : payload_shape (certificate_data uuid now d)
  | shape_retired cert_id h now : payload_shape (retirement_data cert_id h now).

(** The block log and the two indices tell the same story. *)
Record log_wf (s : GreenChain) : Prop := mk_log_wf {
  log_shape : ∀ i b, chain s !! i = Some b → payload_shape (data b);
  log_issued : issued_ids (chain s) = (certificates s).*1;
  log_issued_nodup : NoDup (certificates s).*1;
  log_retired : list_to_set (retired_ids (chain s)) = retired_certificates s;
  log_retired_nodup : NoDup (retired_ids (chain s));
  log_length : length (chain s)
               = S (length (certificates s) + size (retired_certificates s));
  log_points : ∀ k ci, (k, ci) ∈ certificates s →
               ∃ i b, chain s !! i = Some b
                      ∧ ci_block_index ci = Z.of_nat i
                      ∧ hash b = ci_hash ci
                      ∧ data b = ci_data ci
                      ∧ dict_get (data b) "type" = JStr "hydrogen_credit_certificate"
                      ∧ data b !! "certificate_id" = Some k
}.

(** [extends s s']: the later state keeps the blocks, the retired identifiers and what the index
    records of each certificate but its status. *)
Definition extends (s s' : GreenChain) : Prop :=
  chain s `prefix_of` chain s'
  ∧ retired_certificates s ⊆ retired_certificates s'
  ∧ ∀ k ci, od_lookup k (certificates s) = Some ci →
            ∃ ci', od_lookup k (certificates s') = Some ci'
                   ∧ ci_hash ci' = ci_hash ci
                   ∧ ci_block_index ci' = ci_block_index ci
                   ∧ ci_data ci' = ci_data ci.

(** A block edit that rewrites the index to 0 and installs another payload. *)
Definition bd_forge (payload : dict) (bd : BlockDict) : BlockDict :=
  mkBlockDict 0 (d_timestamp bd) payload (d_previous_hash bd) (d_nonce bd) (d_hash bd).

Definition forge (payload : dict) (i : nat) (doc : Document) : Document :=
  mkDocument (alter (bd_forge payload) i (doc_chain doc)) (doc_certificates doc)
             (doc_retired_certificates doc).

Definition bd_set_index (i : Z) (bd : BlockDict) : BlockDict :=
  mkBlockDict i (d_timestamp bd) (d_data bd) (d_previous_hash bd) (d_nonce bd) (d_hash bd).

(** The entries that the rebuild loop of [import_chain] can process: a block
    of one of the two certificate types must have the key
    [certificate_id]. *)
Definition has_certificate_id (bd : BlockDict) : bool :=
  if bool_decide (dict_get (d_data bd) "type" = JStr "hydrogen_credit_certificate")
     || bool_decide (dict_get (d_data bd) "type" = JStr "certificate_retirement")
  then bool_decide (is_Some (d_data bd !! "certificate_id"))
  else true.

(** Every character is one of [0-9a-f]. *)
Definition is_hex (c : ascii) : bool :=
  let n := nat_of_ascii c in
  ((48 <=? n)%nat && (n <=? 57)%nat) || ((97 <=? n)%nat && (n <=? 102)%nat).

Fixpoint all_hex (h : string) : bool :=
  match h with
  | EmptyString => true
  | String c r => is_hex c && all_hex r
  end.

(** ** The event bus of [RealTimeBlockchain] *)

Module Bus.
Import RealTime.

(** The part of the object that the event methods use. *)
Record State : Type := mkState {
  event_queue : list Event;
  blockchain_events : list EventRecord
}.

(** [self.event_queue.put(event)] *)
Definition put (event : Event) (st : State) : State :=
  mkState (event_queue st ++ [event]) (blockchain_events st).

Definition emit_certificate_issued (certificate_data : dict) (blockchain_hash now : string)
    (st : State) : State :=
  put (mkEvent (JStr "certificate_issued") now
         (<["certificate_id" := dict_get certificate_data "certificate_id"]>
          (<["blockchain_hash" := JStr blockchain_hash]>
          (<["seller_id" := dict_get certificate_data "seller_id"]>
          (<["facility_name" := dict_get certificate_data "facility_name"]>
          (<["tokens_generated" := dict_get certificate_data "tokens_generated"]>
          (<["renewable_source" := dict_get certificate_data "renewable_source"]>
          (<["status" := JStr "issued"]> ∅)))))))
         (JStr "blockchain")) st.

Definition emit_certificate_retired (certificate_data : dict) (now retired_at : string)
    (st : State) : State :=
  put (mkEvent (JStr "certificate_retired") now
         (<["certificate_id" := dict_get certificate_data "certificate_id"]>
          (<["blockchain_hash" := dict_get certificate_data "blockchain_hash"]>
          (<["retired_at" := JStr retired_at]>
          (<["status" := JStr "retired"]> ∅))))
         (JStr "blockchain")) st.

Definition emit_blockchain_update (update_data : dict) (now : string) (st : State)
  : State :=
  put (mkEvent (JStr "blockchain_update") now update_data (JStr "broadcast")) st.

(** One turn of the loop of [_process_events] on a queue that may be empty.
    [delivered] tells whether [socketio.emit] returned; when it raises, the
    handler of [_broadcast_event] logs the error and the event is not
    recorded. *)
Definition process_events_step (now : string) (delivered : bool) (st : State) : State :=
  match event_queue st with
  | [] => st
  | event :: rest =>
      mkState rest
        (if delivered then broadcast_event now event (blockchain_events st)
         else blockchain_events st)
  end.

(** Turns of the loop, one clock reading and one delivery outcome each. *)
Fixpoint process_events (turns : list (string * bool)) (st : State) : State :=
  match turns with
  | [] => st
  | (now, delivered) :: r => process_events r (process_events_step now delivered st)
  end.

(** [_get_event_type_counts] *)
Definition get_event_type_counts (events : list EventRecord) : gmap jvalue Z :=
  fold_left
    (λ counts event_record,
       let event_type := ev_type (er_event event_record) in
       <[event_type := default 0 (counts !! event_type) + 1]> counts)
    events ∅.

(** The dictionary returned by [get_live_statistics]; the number of live
    connections and the Web3 flag are passed as they stand. *)
Record Statistics : Type := mkStatistics {
  total_events : Z;
  active_connections : Z;
  last_event : option EventRecord;
  web3_connected : bool;
  event_types : gmap jvalue Z
}.

Definition get_live_statistics (st : State) (connections : Z) (connected : bool)
  : Statistics :=
  mkStatistics (Z.of_nat (length (blockchain_events st))) connections
    (last (blockchain_events st)) connected
    (get_event_type_counts (blockchain_events st)).

(** The sum of the counters. *)
Definition total_count (counts : gmap jvalue Z) : Z :=
  map_fold (λ _ n acc, n + acc) 0 counts.

(** The records made of the delivered events, in queue order. *)
Fixpoint delivered_records (turns : list (string * bool)) (queue : list Event)
  : list EventRecord :=
  match turns, queue with
  | (now, delivered) :: r, event :: rest =>
      (if delivered then [mkEventRecord now event] else [])
      ++ delivered_records r rest
  | _, _ => []
  end.

End Bus.

(** ** A concrete run

    The ledger of the test scripts: difficulty 4, no persisted document. The
    clock readings are chosen so that each nonce search ends within three
    iterations. *)

Module Example.

Definition fresh : GreenChain :=
  Eval vm_compute in
  GreenChain_init 4 None "2025-08-30T10:00:00.250000+00:00" "1756548000.25".

(** The record issued by [test_blockchain.py]. *)
Definition wind_farm : dict :=
  <["seller_id" := JInt 2]>
  (<["facility_name" := JStr "Test Wind Farm"]>
  (<["hydrogen_weight_kg" := JFloat "200.0"]>
  (<["tokens_generated" := JInt 200]>
  (<["renewable_source" := JStr "wind"]>
  (<["production_date" := JStr "2025-08-30"]>
  (<["location" := JStr "Texas"]>
  (<["certification_type" := JStr "premium"]>
  (<["price_per_token" := JFloat "4.2"]> ∅)))))))).

Definition uuid : string := "3f2b8c1e-7d4a-4e6b-9a0c-5d1e2f3a4b5c".
Definition issued_at : string := "2025-08-30T10:00:01.500000+00:00".
Definition retired_at : string := "2025-08-30T10:00:02.500000+00:00".

(** The hash that [issue_certificate] returns on [fresh] at time
    [1756548001.506169], and the state it leaves. *)
Definition issued_hash : string :=
  "0000bf7625d0daf4dc623e0c559e1f66d0b52b23083d6defe72662eeb953e58a".

Definition issued : GreenChain :=
  Eval vm_compute in
  match issue_certificate fresh 8 uuid issued_at "1756548001.506169" wind_farm with
  | Some (_, s) => s
  | None => fresh
  end.

(** The state after that certificate is retired at time [1756548002.512981]. *)
Definition retired : GreenChain :=
  Eval vm_compute in
  match retire_certificate issued 8 retired_at "1756548002.512981" issued_hash with
  | Some (_, s) => s
  | None => issued
  end.

(** What [save_blockchain] writes for [issued]. *)
Definition issued_document : Document :=
  Eval vm_compute in
  match storage (save_blockchain issued) with
  | Some doc => doc
  | None => mkDocument [] [] []
  end.

(** Another issuance on [fresh], at time [1756548002.092614]. *)
Definition issued_later : GreenChain :=
  Eval vm_compute in
  match issue_certificate fresh 8 uuid issued_at "1756548002.092614" wind_farm with
  | Some (_, s) => s
  | None => fresh
  end.

(** An issuance on [fresh] from an empty record, at time [1756548001.636326]. *)
Definition uuid_empty : string := "0a1b2c3d-4e5f-4a6b-8c7d-9e0f1a2b3c4d".

Definition issued_empty : GreenChain :=
  Eval vm_compute in
  match issue_certificate fresh 8 uuid_empty issued_at "1756548001.636326" ∅ with
  | Some (_, s) => s
  | None => fresh
  end.

(** Two dispatched events, oldest first. *)
Definition event_issued : RealTime.EventRecord :=
  RealTime.mkEventRecord "2025-08-30T10:00:01.700000+00:00"
    (RealTime.mkEvent (JStr "certificate_issued") issued_at
       (<["certificate_id" := JStr uuid]> ∅) (JStr "blockchain")).

Definition event_retired : RealTime.EventRecord :=
  RealTime.mkEventRecord "2025-08-30T10:00:02.700000+00:00"
    (RealTime.mkEvent (JStr "certificate_retired") retired_at
       (<["certificate_id" := JStr uuid]> ∅) (JStr "blockchain")).

End Example.

(** ** Ledgers at the edges of the difficulty range *)

Module Edge.

Definition hard : GreenChain :=
  Eval vm_compute in
  GreenChain_init 65 None "2025-08-30T10:00:00.250000+00:00" "1756548000.25".

Definition easy : GreenChain :=
  Eval vm_compute in
  GreenChain_init 0 None "2025-08-30T10:00:00.250000+00:00" "1756548000.25".

(** The ledger loaded from the document of [Example.issued] in which the
    index of the second block is rewritten to -5. *)
Definition negative_index : GreenChain :=
  Eval vm_compute in
  GreenChain_init 4
    (Some (mkDocument (alter (bd_set_index (-5)) 1%nat (doc_chain Example.issued_document))
             (doc_certificates Example.issued_document)
             (doc_retired_certificates Example.issued_document))) "" "".

(** The export of [Example.issued] with the payload of the second block
    replaced by a certificate of another seller, and the same without the
    identifier. *)
Definition forged_export : list BlockDict :=
  Eval vm_compute in
  alter (bd_set_data
           (<["seller_id" := JInt 7]>
              (certificate_data Example.uuid Example.issued_at Example.wind_farm)))
        1%nat (export_chain Example.issued).

Definition broken_export : list BlockDict :=
  Eval vm_compute in
  alter (bd_set_data
           (delete "certificate_id"
              (certificate_data Example.uuid Example.issued_at Example.wind_farm)))
        1%nat (export_chain Example.issued).

End Edge.
(** * Properties *)

(** ** Blocks and hashing *)

(** The standard test vector. *)
Example sha256_abc :
  SHA256.hexdigest "abc"
  = "ba7816bf8f01cfea414140de5dae2223b00361a396177a9cb410ff61f20015ad".
Proof. vm_compute. reflexivity. Qed.

Example sha256_constants :
  length SHA256.K = 64%nat
  ∧ SHA256.K !! 0%nat = Some 0x428a2f98 ∧ SHA256.K !! 63%nat = Some 0xc67178f2
  ∧ SHA256.H0 !! 0%nat = Some 0x6a09e667 ∧ SHA256.H0 !! 7%nat = Some 0x5be0cd19.
Proof. by vm_compute. Qed.

Lemma calculate_hash_set_hash h b : calculate_hash (set_hash h b) = calculate_hash b.
Proof. reflexivity. Qed.

Lemma new_Block_hash i t d p n :
  hash (new_Block i t d p n) = calculate_hash (new_Block i t d p n).
Proof. reflexivity. Qed.

Lemma block_of_dict_to_dict b : block_of_dict (to_dict b) = b.
Proof. by destruct b. Qed.

Lemma map_block_of_dict_to_dict c : map block_of_dict (map to_dict c) = c.
Proof.
  induction c as [|b c IH]; [done|].
  cbn [map]. by rewrite block_of_dict_to_dict, IH.
Qed.

Lemma next_nonce_hash b : hash (next_nonce b) = calculate_hash (next_nonce b).
Proof. reflexivity. Qed.

(** Hashing is never unfolded by the proofs below. *)
Local Opaque calculate_hash.

Lemma same_content_refl b : same_content b b.
Proof. by split. Qed.

Lemma same_content_next b b' : same_content (next_nonce b) b' → same_content b b'.
Proof. intros [? ? ? ?]. by split. Qed.

Lemma mine_loop_sound fuel d b b' :
  mine_loop fuel d b = Some b' →
  hash b = calculate_hash b →
  same_content b b' ∧ hash b' = calculate_hash b' ∧ pow_ok d (hash b') = true.
Proof.
  revert b. induction fuel as [|fuel IH]; intros b; cbn [mine_loop];
    destruct (pow_ok d (hash b)) eqn:Hpow; intros Hm Hh; simplify_eq.
  - auto using same_content_refl.
  - auto using same_content_refl.
  - destruct (IH _ Hm (next_nonce_hash b)) as (? & ? & ?).
    auto using same_content_next.
Qed.

Lemma mine_loop_complete k fuel d b :
  pow_ok d (hash (Nat.iter k next_nonce b)) = true →
  (k ≤ fuel)%nat →
  ∃ j, (j ≤ k)%nat ∧ mine_loop fuel d b = Some (Nat.iter j next_nonce b).
Proof.
  revert fuel b. induction k as [|k IH]; intros fuel b Hpow Hle.
  - exists 0%nat. split; [done|]. cbn in Hpow. destruct fuel; cbn; by rewrite Hpow.
  - destruct (pow_ok d (hash b)) eqn:Hb.
    + exists 0%nat. split; [lia|]. destruct fuel; cbn; by rewrite Hb.
    + destruct fuel as [|fuel]; [lia|].
      rewrite Nat.iter_succ_r in Hpow.
      destruct (IH fuel (next_nonce b) Hpow ltac:(lia)) as (j & Hj & Hm).
      exists (S j). split; [lia|].
      cbn [mine_loop]. rewrite Hb, Hm. by rewrite Nat.iter_succ_r.
Qed.

Lemma mine_block_candidate s fuel t payload :
  mine_block s fuel t payload = mine_loop fuel (difficulty s) (candidate s t payload 0).
Proof. reflexivity. Qed.

Lemma candidate_iter s t payload k :
  candidate s t payload k = Nat.iter k next_nonce (candidate s t payload 0).
Proof. reflexivity. Qed.

(** ** Python indexing *)

Lemma py_getitem_nat {A} (l : list A) (i : nat) x :
  l !! i = Some x → py_getitem l (Z.of_nat i) = Ok x.
Proof.
  intros Hl. unfold py_getitem.
  destruct (Z.ltb_spec (Z.of_nat i) 0); [lia|].
  destruct (Z.leb_spec 0 (Z.of_nat i)); [|lia].
  by rewrite Nat2Z.id, Hl.
Qed.

Lemma py_getitem_in_range {A} (l : list A) (i : Z) :
  0 ≤ i < Z.of_nat (length l) → ∃ x, l !! Z.to_nat i = Some x ∧ py_getitem l i = Ok x.
Proof.
  intros Hi. destruct (lookup_lt_is_Some_2 l (Z.to_nat i)) as [x Hx]; [lia|].
  exists x. split; [done|]. rewrite <-(Z2Nat.id i) by lia. by apply py_getitem_nat.
Qed.

(** ** The chain invariant *)

Lemma chain_wf_frame s s' :
  chain s' = chain s → difficulty s' = difficulty s → chain_wf s → chain_wf s'.
Proof.
  intros Hc Hd [Hg Hi Hh Hl]. split; rewrite ?Hc, ?Hd; auto.
Qed.

Lemma latest_block s :
  chain_wf s →
  ∃ p, get_latest_block s = Some p
       ∧ chain s !! pred (length (chain s)) = Some p
       ∧ index p = Z.of_nat (pred (length (chain s)))
       ∧ (0 < length (chain s))%nat.
Proof.
  intros Hwf. destruct (wf_genesis _ Hwf) as [g Hg].
  apply lookup_lt_Some in Hg.
  destruct (lookup_lt_is_Some_2 (chain s) (pred (length (chain s)))) as [p Hp]; [lia|].
  exists p. unfold get_latest_block. rewrite last_lookup.
  eauto using wf_index.
Qed.

Lemma candidate_0 s t payload p :
  get_latest_block s = Some p →
  candidate s t payload 0 = new_Block (index p + 1) (JFloat t) payload (hash p) 0.
Proof. intros Hp. unfold candidate. by rewrite Hp. Qed.

(** A block that continues the tip and carries a sealed hash is accepted. *)
Lemma is_valid_block_next s p b :
  chain_wf s →
  get_latest_block s = Some p →
  index b = index p + 1 →
  previous_hash b = hash p →
  hash b = calculate_hash b →
  pow_ok (difficulty s) (hash b) = true →
  is_valid_block s b = Ok true.
Proof.
  intros Hwf Hp Hi Hprev Hh Hpow.
  destruct (latest_block s Hwf) as (p' & Hp' & Hlook & Hidx & Hlen).
  assert (p' = p) as -> by congruence.
  unfold is_valid_block. rewrite Hi, Hidx.
  destruct (Z.eqb_spec (Z.of_nat (pred (length (chain s))) + 1) 0); [lia|].
  rewrite Z.geb_leb.
  destruct (Z.leb_spec (Z.of_nat (length (chain s)))
                       (Z.of_nat (pred (length (chain s))) + 1 - 1)); [lia|].
  replace (Z.of_nat (pred (length (chain s))) + 1 - 1)
    with (Z.of_nat (pred (length (chain s)))) by lia.
  rewrite (py_getitem_nat _ _ _ Hlook).
  rewrite bool_decide_eq_false_2 by (intros Hne; by apply Hne).
  rewrite bool_decide_eq_false_2 by (intros Hne; by apply Hne).
  by rewrite Hpow.
Qed.

Lemma mine_block_spec s fuel t payload b :
  chain_wf s →
  mine_block s fuel t payload = Some b →
  is_valid_block s b = Ok true
  ∧ index b = Z.of_nat (length (chain s))
  ∧ data b = payload
  ∧ hash b = calculate_hash b.
Proof.
  intros Hwf Hm.
  destruct (latest_block s Hwf) as (p & Hp & Hlook & Hidx & Hlen).
  rewrite mine_block_candidate, (candidate_0 _ _ _ _ Hp) in Hm.
  apply mine_loop_sound in Hm as ([Hi _ Hd Hprev] & Hh & Hpow);
    [|apply new_Block_hash].
  cbn in Hi, Hd, Hprev.
  split_and!; [|lia|done|done].
  eapply is_valid_block_next; eauto.
Qed.

Lemma chain_wf_snoc s b st :
  chain_wf s →
  is_valid_block s b = Ok true →
  index b = Z.of_nat (length (chain s)) →
  hash b = calculate_hash b →
  chain_wf (set_storage st (set_chain (chain s ++ [b]) s)).
Proof.
  intros Hwf Hv Hi Hh.
  destruct (latest_block s Hwf) as (p & Hp & Hlook & Hidx & Hlen).
  assert (previous_hash b = hash p ∧ pow_ok (difficulty s) (hash b) = true)
    as [Hprev Hpow].
  { revert Hv. unfold is_valid_block. rewrite Hi.
    destruct (Z.eqb_spec (Z.of_nat (length (chain s))) 0); [lia|].
    rewrite Z.geb_leb.
    destruct (Z.leb_spec (Z.of_nat (length (chain s)))
                         (Z.of_nat (length (chain s)) - 1)); [lia|].
    replace (Z.of_nat (length (chain s)) - 1)
      with (Z.of_nat (pred (length (chain s)))) by lia.
    rewrite (py_getitem_nat _ _ _ Hlook).
    repeat case_bool_decide; try done.
    destruct (pow_ok (difficulty s) (hash b)); [|done].
    intros _. split; [|done].
    by destruct (decide (previous_hash b = hash p)). }
  destruct Hwf as [Hg Hi' Hh' Hl]. split; cbn.
  - destruct Hg as [g Hg]. exists g. by apply lookup_app_l_Some.
  - intros i c [Hc|[Hlen' Hc]]%lookup_app_Some; [eauto|].
    apply list_lookup_singleton_Some in Hc as [Hz ->]. lia.
  - intros i c [Hc|[Hlen' Hc]]%lookup_app_Some; [eauto|].
    by apply list_lookup_singleton_Some in Hc as [Hz ->].
  - intros i q c Hq [Hc|[Hlen' Hc]]%lookup_app_Some.
    + apply lookup_app_Some in Hq as [Hq|[Hge _]]; [eauto|].
      apply lookup_lt_Some in Hc. lia.
    + apply list_lookup_singleton_Some in Hc as [Hz ->].
      assert (i = pred (length (chain s))) as -> by lia.
      rewrite lookup_app_l in Hq by lia.
      by assert (q = p) as -> by congruence.
Qed.

(** ** Payload fields *)

Lemma certificate_data_type uuid now d :
  dict_get (certificate_data uuid now d) "type" = JStr "hydrogen_credit_certificate".
Proof. reflexivity. Qed.

Lemma certificate_data_id uuid now d :
  certificate_data uuid now d !! "certificate_id" = Some (JStr uuid).
Proof. reflexivity. Qed.

Lemma retirement_data_type cert_id h now :
  dict_get (retirement_data cert_id h now) "type" = JStr "certificate_retirement".
Proof. reflexivity. Qed.

Lemma retirement_data_id cert_id h now :
  retirement_data cert_id h now !! "certificate_id" = Some cert_id.
Proof. reflexivity. Qed.

(** ** Insertion-ordered dictionaries *)

Section odict_facts.
Context {K V : Type} `{EqDecision K}.
Implicit Types (l : list (K * V)) (k : K) (v : V).

Lemma od_mem_true k l : od_mem k l = true ↔ is_Some (od_lookup k l).
Proof. unfold od_mem. by rewrite bool_decide_eq_true. Qed.

Lemma od_mem_false k l : od_mem k l = false ↔ od_lookup k l = None.
Proof.
  unfold od_mem. rewrite bool_decide_eq_false.
  by rewrite eq_None_not_Some.
Qed.

Lemma od_lookup_elem k v l : (k, v) ∈ l → is_Some (od_lookup k l).
Proof.
  induction l as [|[k' v'] l IH]; [by intros ?%elem_of_nil|].
  intros [Heq|Hin]%elem_of_cons; cbn; case_decide; simplify_eq; eauto.
Qed.

Lemma od_lookup_Some_elem k v l : od_lookup k l = Some v → (k, v) ∈ l.
Proof.
  induction l as [|[k' v'] l IH]; [done|].
  cbn. case_decide; intros; simplify_eq; [left|right; auto].
Qed.

Lemma od_set_fresh k v l : od_lookup k l = None → od_set k v l = l ++ [(k, v)].
Proof.
  induction l as [|[k' v'] l IH]; [done|].
  cbn. case_decide; [done|]. intros Hl. by rewrite IH.
Qed.

Lemma od_lookup_set k k' v l :
  od_lookup k' (od_set k v l) = if decide (k' = k) then Some v else od_lookup k' l.
Proof.
  induction l as [|[k'' v''] l IH]; cbn.
  - by repeat case_decide.
  - repeat (case_decide; cbn; simplify_eq); try done.
Qed.

Lemma od_lookup_alter (f : V → V) k k' l :
  od_lookup k' (od_alter f k l)
  = if decide (k' = k) then f <$> od_lookup k' l else od_lookup k' l.
Proof.
  induction l as [|[k'' v''] l IH]; cbn.
  - by case_decide.
  - repeat (case_decide; cbn; simplify_eq); try done.
Qed.

Lemma od_mem_set k k' v l : od_mem k' l = true → od_mem k' (od_set k v l) = true.
Proof.
  rewrite !od_mem_true, od_lookup_set. by case_decide.
Qed.

Lemma od_mem_alter (f : V → V) k k' l : od_mem k' (od_alter f k l) = od_mem k' l.
Proof.
  apply bool_decide_ext. rewrite od_lookup_alter.
  case_decide; [|done]. by rewrite fmap_is_Some.
Qed.
End odict_facts.

Lemma find_by_hash_Some h items k ci :
  find_by_hash h items = Some (k, ci) → (k, ci) ∈ items ∧ ci_hash ci = h.
Proof.
  induction items as [|[k' ci'] items IH]; [done|].
  cbn. case_bool_decide; intros; simplify_eq.
  - split; [left|done].
  - destruct IH as [? ?]; [done|]. split; [by right|done].
Qed.

Lemma find_by_hash_None h items :
  find_by_hash h items = None ↔ ∀ k ci, (k, ci) ∈ items → ci_hash ci ≠ h.
Proof.
  induction items as [|[k' ci'] items IH]; cbn.
  - split; [by intros _ ?? ?%elem_of_nil|done].
  - case_bool_decide as Hh.
    + split; [done|]. intros Hall. destruct (Hall k' ci'); [left|done].
    + rewrite IH. split.
      * intros Hall k ci [?|?]%elem_of_cons; simplify_eq; eauto.
      * intros Hall k ci ?. apply (Hall k ci). by right.
Qed.

Lemma find_by_hash_snoc h items k ci :
  find_by_hash h items = None → ci_hash ci = h →
  find_by_hash h (items ++ [(k, ci)]) = Some (k, ci).
Proof.
  induction items as [|[k' ci'] items IH]; cbn.
  - intros _ ->. by rewrite bool_decide_eq_true_2.
  - case_bool_decide; [done|]. auto.
Qed.

Lemma verify_loop_find s h items :
  verify_loop s h items
  = match find_by_hash h items with
    | Some (cert_id, cert_info) => verify_entry s cert_id cert_info h
    | None => Ok (false, error_dict "Certificate not found")
    end.
Proof.
  induction items as [|[k ci] items IH]; [done|].
  cbn. by case_bool_decide.
Qed.

Lemma retire_loop_find s fuel now t h items :
  retire_loop s fuel now t h items
  = match find_by_hash h items with
    | Some (cert_id, _) => retire_entry s fuel now t cert_id h
    | None => Some (Ok false, s)
    end.
Proof.
  induction items as [|[k ci] items IH]; [done|].
  cbn. by case_bool_decide.
Qed.

(** ** Replaying the block log *)

(** The rebuild loop reads and writes the two indices only. *)
Lemma rebuild_step_frame c d st s b :
  rebuild_step (reframe c d st s) b
  = ((rebuild_step s b).1, reframe c d st (rebuild_step s b).2).
Proof.
  unfold rebuild_step. cbn.
  repeat case_bool_decide; try done; destruct (data b !! "certificate_id");
    try done; cbn; by destruct (od_mem _ _).
Qed.

Lemma rebuild_frame c d st s bs :
  rebuild (reframe c d st s) bs
  = ((rebuild s bs).1, reframe c d st (rebuild s bs).2).
Proof.
  revert s. induction bs as [|b bs IH]; intros s; [done|].
  cbn [rebuild]. rewrite rebuild_step_frame.
  destruct (rebuild_step s b) as [[[]|e] s1]; cbn; [apply IH|done].
Qed.

Lemma rebuild_snoc s bs b s1 :
  rebuild s bs = (Ok (), s1) →
  rebuild s (bs ++ [b])
  = match rebuild_step s1 b with
    | (Ok _, s2) => (Ok (), s2)
    | (Raise e, s2) => (Raise e, s2)
    end.
Proof.
  revert s. induction bs as [|b' bs IH]; intros s; cbn [rebuild app].
  - intros [= ->]. by destruct (rebuild_step s1 b) as [[[]|e] s2].
  - destruct (rebuild_step s b') as [[[]|e] s2]; [apply IH|done].
Qed.

(** ** What a call can do *)

Lemma add_block_valid s b :
  is_valid_block s b = Ok true →
  add_block s b = (Ok true, save_blockchain (set_chain (chain s ++ [b]) s)).
Proof. intros Hv. unfold add_block. by rewrite Hv. Qed.

(** The state after a certificate has been issued on block [b]. *)
Lemma issue_certificate_inv s fuel uuid now t d r s' :
  chain_wf s →
  issue_certificate s fuel uuid now t d = Some (r, s') →
  (od_mem (JStr uuid) (certificates s) = true ∧ r = Raise duplicate_id ∧ s' = s)
  ∨ (∃ b, od_mem (JStr uuid) (certificates s) = false
          ∧ mine_block s fuel t (certificate_data uuid now d) = Some b
          ∧ r = Ok (hash b)
          ∧ s' = set_certificates
                   (od_set (JStr uuid)
                      (mkCertInfo (hash b) (index b) (certificate_data uuid now d) "active")
                      (certificates s))
                   (save_blockchain (set_chain (chain s ++ [b]) s))).
Proof.
  intros Hwf. unfold issue_certificate.
  destruct (od_mem (JStr uuid) (certificates s)) eqn:Hmem.
  { intros [= <- <-]. by left. }
  destruct (mine_block s fuel t (certificate_data uuid now d)) as [b|] eqn:Hm; [|done].
  destruct (mine_block_spec _ _ _ _ _ Hwf Hm) as (Hv & _).
  rewrite (add_block_valid _ _ Hv). intros [= <- <-]. right. by exists b.
Qed.

Lemma retire_certificate_inv s fuel now t h r s' :
  chain_wf s →
  retire_certificate s fuel now t h = Some (r, s') →
  (r = Ok false ∧ s' = s
   ∧ (find_by_hash h (certificates s) = None
      ∨ (∃ cid ci, find_by_hash h (certificates s) = Some (cid, ci)
                   ∧ cid ∈ retired_certificates s)))
  ∨ (∃ cid ci b,
       find_by_hash h (certificates s) = Some (cid, ci)
       ∧ (cid ∉ retired_certificates s)
       ∧ mine_block (mark_retired cid s) fuel t (retirement_data cid h now) = Some b
       ∧ r = Ok true
       ∧ s' = save_blockchain
                (set_chain (chain s ++ [b]) (mark_retired cid s))).
Proof.
  intros Hwf. unfold retire_certificate. rewrite retire_loop_find.
  destruct (find_by_hash h (certificates s)) as [[cid ci]|] eqn:Hf.
  2:{ intros [= <- <-]. left. auto. }
  unfold retire_entry. case_bool_decide as Hr.
  { intros [= <- <-]. left. split_and!; [done..|]. right. eauto. }
  destruct (mine_block _ fuel t _) as [b|] eqn:Hm; [|done].
  assert (chain_wf (mark_retired cid s)) as Hwf1.
  { by apply (chain_wf_frame s). }
  destruct (mine_block_spec _ _ _ _ _ Hwf1 Hm) as (Hv & _).
  rewrite (add_block_valid _ _ Hv). intros [= <- <-].
  right. exists cid, ci, b. done.
Qed.

(** ** Every reachable state is well formed *)

Lemma fresh_wf d now t :
  chain_wf (GreenChain_init d None now t) ∧ index_wf (GreenChain_init d None now t).
Proof.
  split; split; cbn.
  - by eexists.
  - by intros [|[|i]] b [= <-].
  - by intros [|[|i]] b [= <-].
  - by intros [|[|i]] p b.
  - reflexivity.
  - by intros k ?%elem_of_empty.
  - reflexivity.
Qed.

Lemma issued_index_wf s b uuid now d :
  index_wf s →
  data b = certificate_data uuid now d →
  index_wf (set_certificates
              (od_set (JStr uuid) (mkCertInfo (hash b) (index b) (data b) "active")
                 (certificates s))
              (save_blockchain (set_chain (chain s ++ [b]) s))).
Proof.
  intros [Hrep Hret Hst] Hd. split; cbn.
  - change (clear_indices _)
      with (reframe (chain s ++ [b]) (difficulty s)
              (Some (mkDocument (map to_dict (chain s ++ [b])) (certificates s)
                                (elements (retired_certificates s))))
              (clear_indices s)).
    erewrite rebuild_snoc; [|by rewrite rebuild_frame, Hrep].
    unfold rebuild_step. cbn.
    rewrite Hd, certificate_data_type, certificate_data_id.
    by rewrite bool_decide_eq_true_2.
  - intros k Hk. by apply od_mem_set, Hret.
  - reflexivity.
Qed.

Lemma retired_index_wf s b cid h now :
  index_wf s →
  od_mem cid (certificates s) = true →
  data b = retirement_data cid h now →
  index_wf (save_blockchain (set_chain (chain s ++ [b]) (mark_retired cid s))).
Proof.
  intros [Hrep Hret Hst] Hmem Hd. split; cbn.
  - change (clear_indices _)
      with (reframe (chain s ++ [b]) (difficulty s)
              (Some (mkDocument (map to_dict (chain s ++ [b]))
                       (od_alter (set_status "retired") cid (certificates s))
                       (elements ({[cid]} ∪ retired_certificates s))))
              (clear_indices s)).
    erewrite rebuild_snoc; [|by rewrite rebuild_frame, Hrep].
    unfold rebuild_step. cbn.
    rewrite Hd, retirement_data_type, retirement_data_id.
    rewrite bool_decide_eq_false_2 by done.
    rewrite bool_decide_eq_true_2 by done.
    by rewrite Hmem.
  - intros k [->%elem_of_singleton|Hk]%elem_of_union; rewrite od_mem_alter; auto.
  - reflexivity.
Qed.

Lemma reachable_wf s : reachable s → chain_wf s ∧ index_wf s.
Proof.
  induction 1 as [d now t
                 |s fuel uuid now t payload r s' _ [Hc Hi] Hcall
                 |s fuel now t h r s' _ [Hc Hi] Hcall].
  - apply fresh_wf.
  - destruct (issue_certificate_inv _ _ _ _ _ _ _ _ Hc Hcall)
      as [(_ & _ & ->)|(b & _ & Hm & _ & ->)]; [by split|].
    destruct (mine_block_spec _ _ _ _ _ Hc Hm) as (Hv & Hidx & Hd & Hh).
    split.
    + eapply chain_wf_frame; [| |by apply (chain_wf_snoc s b None)]; done.
    + rewrite <-Hd. by eapply issued_index_wf.
  - destruct (retire_certificate_inv _ _ _ _ _ _ _ Hc Hcall)
      as [(_ & -> & _)|(cid & ci & b & Hf & _ & Hm & _ & ->)]; [by split|].
    assert (chain_wf (mark_retired cid s)) as Hc1.
    { by apply (chain_wf_frame s). }
    destruct (mine_block_spec _ _ _ _ _ Hc1 Hm) as (Hv & Hidx & Hd & Hh).
    split.
    + eapply chain_wf_frame; [| |by apply (chain_wf_snoc _ b None Hc1)]; done.
    + eapply retired_index_wf; [done| |done].
      apply find_by_hash_Some in Hf as [Hin _].
      apply od_mem_true. by eapply od_lookup_elem.
Qed.

(** ** The concrete run *)

Lemma example_issue :
  issue_certificate Example.fresh 8 Example.uuid Example.issued_at
    "1756548001.506169" Example.wind_farm
  = Some (Ok Example.issued_hash, Example.issued).
Proof. vm_compute. reflexivity. Qed.

Lemma example_retire :
  retire_certificate Example.issued 8 Example.retired_at "1756548002.512981"
    Example.issued_hash
  = Some (Ok true, Example.retired).
Proof. vm_compute. reflexivity. Qed.

(** ** Validation of a stored chain *)

(** The verdict on a block that claims the position after [p]. *)
Lemma is_valid_block_at s i b p :
  chain s !! i = Some p →
  index b = Z.of_nat (S i) →
  is_valid_block s b
  = Ok (bool_decide (previous_hash b = hash p)
        && bool_decide (hash b = calculate_hash b)
        && pow_ok (difficulty s) (hash b)).
Proof.
  intros Hp Hi. pose proof (lookup_lt_Some _ _ _ Hp) as Hlt.
  unfold is_valid_block. rewrite Hi.
  destruct (Z.eqb_spec (Z.of_nat (S i)) 0); [lia|].
  rewrite Z.geb_leb.
  destruct (Z.leb_spec (Z.of_nat (length (chain s))) (Z.of_nat (S i) - 1)); [lia|].
  replace (Z.of_nat (S i) - 1) with (Z.of_nat i) by lia.
  rewrite (py_getitem_nat _ _ _ Hp).
  repeat case_bool_decide; try done; by destruct (pow_ok _ _).
Qed.

Lemma all_valid_true s bs :
  (∀ b, b ∈ bs → is_valid_block s b = Ok true) → all_valid s bs = Ok true.
Proof.
  induction bs as [|b bs IH]; [done|]. intros Hall.
  cbn. rewrite (Hall b) by left. apply IH. intros c Hc. apply Hall. by right.
Qed.

Lemma all_valid_false s bs b :
  (∀ c, c ∈ bs → ∃ v, is_valid_block s c = Ok v) →
  b ∈ bs → is_valid_block s b = Ok false →
  all_valid s bs = Ok false.
Proof.
  induction bs as [|c bs IH]; [by intros _ ?%elem_of_nil|].
  intros Hall Hin Hb. cbn.
  destruct (Hall c) as [[] Hc]; [left|rewrite Hc..]; [|done].
  apply elem_of_cons in Hin as [->|Hin]; [congruence|].
  apply IH; [|done..]. intros c' Hc'. apply Hall. by right.
Qed.

Lemma chain_wf_valid s : chain_wf s → is_chain_valid s = Ok true.
Proof.
  intros [Hg Hi Hh Hl]. apply all_valid_true.
  intros b [i Hb]%list_elem_of_lookup. rewrite lookup_drop in Hb. cbn in Hb.
  destruct (lookup_lt_is_Some_2 (chain s) i) as [p Hp].
  { apply lookup_lt_Some in Hb. lia. }
  destruct (Hl _ _ _ Hp Hb) as [Hprev Hpow].
  rewrite (is_valid_block_at s i b p Hp (Hi _ _ Hb)), Hpow.
  by rewrite !bool_decide_eq_true_2 by eauto.
Qed.

(** Reloading a document whose chain is not empty. *)
Lemma init_loaded d doc now t :
  doc_chain doc ≠ [] →
  GreenChain_init d (Some doc) now t
  = mkGreenChain (map block_of_dict (doc_chain doc)) d (doc_certificates doc)
                 (list_to_set (doc_retired_certificates doc)) (Some doc).
Proof.
  intros Hne. unfold GreenChain_init, load_blockchain. cbn.
  by destruct (doc_chain doc).
Qed.

Lemma block_of_dict_mutate m bd :
  index (block_of_dict (mutate m bd)) = d_index bd
  ∧ hash (block_of_dict (mutate m bd)) = d_hash bd.
Proof. by destruct m. Qed.

(** A mutation that changes what is validated, anywhere after the genesis
    block, makes the reloaded chain invalid. *)
Lemma tamper_detected s doc i bd m d now t :
  chain_wf s →
  doc_chain doc = map to_dict (chain s) →
  (0 < i)%nat →
  doc_chain doc !! i = Some bd →
  effective m bd →
  is_chain_valid (GreenChain_init d (Some (tamper m i doc)) now t) = Ok false.
Proof.
  intros [Hg Hi Hh Hl] Hdoc Hpos Hbd Heff.
  rewrite Hdoc in Hbd. apply list_lookup_fmap_Some in Hbd as (b & -> & Hb).
  destruct i as [|i]; [lia|].
  destruct (lookup_lt_is_Some_2 (chain s) i) as [p Hp].
  { apply lookup_lt_Some in Hb. lia. }
  destruct (Hl _ _ _ Hp Hb) as [Hprev Hpow].
  rewrite init_loaded.
  2:{ cbn. rewrite Hdoc. intros Hnil. apply (f_equal length) in Hnil.
      rewrite length_alter, length_map in Hnil. apply lookup_lt_Some in Hb.
      cbn in Hnil. lia. }
  set (s2 := mkGreenChain _ _ _ _ _).
  assert (chain s2 = alter (λ c, block_of_dict (mutate m (to_dict c))) (S i) (chain s))
    as Hchain.
  { cbn. rewrite Hdoc. apply list_eq. intros j.
    rewrite list_lookup_fmap. destruct (decide (S i = j)) as [<-|Hne].
    - by rewrite !list_lookup_alter_eq, list_lookup_fmap, Hb.
    - rewrite !list_lookup_alter_ne, list_lookup_fmap by done.
      destruct (chain s !! j) as [c|]; [|done]. cbn. by rewrite block_of_dict_to_dict. }
  assert (chain s2 !! i = Some p) as Hp2.
  { rewrite Hchain. by rewrite list_lookup_alter_ne by lia. }
  set (b' := block_of_dict (mutate m (to_dict b))).
  assert (chain s2 !! S i = Some b') as Hb2.
  { rewrite Hchain. by rewrite list_lookup_alter_eq, Hb. }
  unfold is_chain_valid. apply (all_valid_false _ _ b').
  - intros c [j Hc]%list_elem_of_lookup. rewrite lookup_drop in Hc.
    change (1 + j)%nat with (S j) in Hc.
    destruct (lookup_lt_is_Some_2 (chain s2) j) as [q Hq].
    { apply lookup_lt_Some in Hc. lia. }
    eexists. apply (is_valid_block_at s2 j c q Hq).
    rewrite Hchain in Hc. destruct (decide (S i = S j)) as [Heq|Hne].
    + rewrite Heq, list_lookup_alter_eq in Hc.
      destruct (chain s !! S j) as [c0|] eqn:Hc0; [|done]. cbn in Hc.
      injection Hc as <-. destruct (block_of_dict_mutate m (to_dict c0)) as [-> _].
      cbn. eauto.
    + rewrite list_lookup_alter_ne in Hc by done. eauto.
  - apply list_elem_of_lookup. exists i. by rewrite lookup_drop.
  - rewrite (is_valid_block_at s2 i b' p Hp2).
    2:{ unfold b'. destruct (block_of_dict_mutate m (to_dict b)) as [-> _]. cbn. eauto. }
    f_equal. destruct m as [payload|q]; cbn in Heff.
    + rewrite (bool_decide_eq_false_2 (hash b' = _)); [by rewrite andb_false_r|].
      intros Heq. apply Heff. symmetry. exact Heq.
    + rewrite (bool_decide_eq_false_2 (previous_hash b' = _)); [done|].
      cbn. congruence.
Qed.

Lemma example_fresh :
  Example.fresh
  = GreenChain_init 4 None "2025-08-30T10:00:00.250000+00:00" "1756548000.25".
Proof. vm_compute. reflexivity. Qed.

Lemma example_fresh_reachable : reachable Example.fresh.
Proof. rewrite example_fresh. constructor. Qed.

Lemma example_issued_reachable : reachable Example.issued.
Proof. eapply reach_issue; [apply example_fresh_reachable|apply example_issue]. Qed.

Lemma example_retired_reachable : reachable Example.retired.
Proof. eapply reach_retire; [apply example_issued_reachable|apply example_retire]. Qed.

Lemma example_issue_later :
  issue_certificate Example.fresh 8 Example.uuid Example.issued_at
    "1756548002.092614" Example.wind_farm
  = Some (Ok "00000238caf5e577211a1adeb7fc21979194ed4b9090843863b645994f0fb9c7",
          Example.issued_later).
Proof. vm_compute. reflexivity. Qed.

(** ** Proof of work as a count of leading zeros *)

Lemma pow_ok_leading_zeros d h :
  pow_ok d h = true ↔ (Z.to_nat d ≤ leading_zeros h)%nat.
Proof.
  unfold pow_ok, py_repeat. generalize (Z.to_nat d) as n. clear d.
  intros n. revert h. induction n as [|n IH]; intros h.
  - cbn. destruct h; split; (lia || done).
  - change (Nat.iter (S n) (λ acc, "0" +:+ acc) EmptyString)
      with (String "0"%char (Nat.iter n (λ acc, "0" +:+ acc) EmptyString)).
    destruct h as [|c h]; cbn [String.prefix leading_zeros].
    + split; [done|lia].
    + destruct (ascii_dec "0" c) as [<-|Hne].
      * rewrite bool_decide_eq_true_2 by done. rewrite IH. lia.
      * rewrite bool_decide_eq_false_2 by congruence. split; [done|lia].
Qed.

(** * The claims *)

(** C4, as amended. A ledger initialised without a persisted document holds
    exactly one block, the genesis block: index 0, [previous_hash] ["0"],
    payload of type [genesis]. That block is not mined: its nonce is 0 and its
    hash is the hash of its fields, whatever its leading characters are.
    [is_valid_block] accepts it without looking at the proof of work, so the
    chain is valid at every difficulty. *)
Theorem fresh_ledger_genesis (d : Z) (now t : string) :
  ∃ g, chain (GreenChain_init d None now t) = [g]
       ∧ index g = 0
       ∧ previous_hash g = "0"
       ∧ dict_get (data g) "type" = JStr "genesis"
       ∧ nonce g = 0
       ∧ hash g = calculate_hash g
       ∧ is_valid_block (GreenChain_init d None now t) g = Ok true
       ∧ is_chain_valid (GreenChain_init d None now t) = Ok true.
Proof. eexists. by split_and!. Qed.

(** C4 as stated fails: at the configured difficulty 4 the genesis block of
    the example ledger has a hash that does not start with four zeros. *)
Lemma genesis_without_proof_of_work :
  ∃ g, chain (GreenChain_init 4 None "2025-08-30T10:00:00.250000+00:00" "1756548000.25")
       = [g]
       ∧ hash g = "942c6e2da6baa7725b2f3ec4df6a91bfe171b99677beafd89fce65e6c93fce9e"
       ∧ pow_ok 4 (hash g) = false.
Proof. eexists. split_and!; [reflexivity|by vm_compute..]. Qed.

(** C5, as amended. In a ledger built by issue and retire calls, every block
    carries the hash recomputed from its own fields, and every block after the
    genesis block has a hash that starts with at least [difficulty] zeros;
    there may be more, and the genesis block is under no such constraint. *)
Theorem block_hashes_sealed (s : GreenChain) (i : nat) (b : Block) :
  reachable s →
  chain s !! i = Some b →
  hash b = calculate_hash b
  ∧ (i ≠ 0%nat →
     pow_ok (difficulty s) (hash b) = true
     ∧ (Z.to_nat (difficulty s) ≤ leading_zeros (hash b))%nat).
Proof.
  intros [[Hg Hi Hh Hl] _]%reachable_wf Hb. split; [eauto|].
  intros Hne. destruct i as [|i]; [done|].
  destruct (lookup_lt_is_Some_2 (chain s) i) as [p Hp].
  { apply lookup_lt_Some in Hb. lia. }
  destruct (Hl _ _ _ Hp Hb) as [_ Hpow]. split; [done|].
  by apply pow_ok_leading_zeros.
Qed.

Lemma block_hashes_sealed_witness :
  reachable Example.issued
  ∧ (∃ b, chain Example.issued !! 1%nat = Some b
          ∧ hash b = calculate_hash b
          ∧ (1%nat ≠ 0%nat →
             pow_ok (difficulty Example.issued) (hash b) = true
             ∧ (Z.to_nat (difficulty Example.issued) ≤ leading_zeros (hash b))%nat)).
Proof.
  split; [apply example_issued_reachable|].
  eexists. split; [reflexivity|].
  apply (block_hashes_sealed Example.issued 1);
    [apply example_issued_reachable|reflexivity].
Defined.

(** C5 as stated fails twice over at difficulty 4: the genesis block of a
    ledger with one certificate has no leading zero, and the block mined for
    the certificate has five. *)
Lemma leading_zeros_not_exact :
  reachable Example.issued_later
  ∧ difficulty Example.issued_later = 4
  ∧ ∃ g b, chain Example.issued_later = [g; b]
           ∧ leading_zeros (hash g) = 0%nat
           ∧ leading_zeros (hash b) = 5%nat.
Proof.
  split; [|split; [reflexivity|]].
  - eapply reach_issue; [apply example_fresh_reachable|apply example_issue_later].
  - do 2 eexists. split_and!; reflexivity.
Qed.

(** C3, as amended. After any sequence of issue and retire calls on a ledger
    that started without a document, [is_chain_valid] returns true and the
    file holds the chain. If one block of that file other than the genesis
    block is given another [previous_hash], or a payload under which it no
    longer hashes to its stored hash, the ledger reloaded from the file (at
    any difficulty) has [is_chain_valid] return false. The genesis block is
    left out: it is exempt from validation. *)
Theorem chain_valid_until_tampered (s : GreenChain) :
  reachable s →
  is_chain_valid s = Ok true
  ∧ ∃ doc, storage s = Some doc
           ∧ doc_chain doc = export_chain s
           ∧ ∀ i bd m d now t,
               (0 < i)%nat →
               doc_chain doc !! i = Some bd →
               effective m bd →
               is_chain_valid (GreenChain_init d (Some (tamper m i doc)) now t)
               = Ok false.
Proof.
  intros [Hc [_ _ Hst]]%reachable_wf. split; [by apply chain_wf_valid|].
  destruct (storage s) as [doc|]; [|done]. injection Hst as Hdoc.
  exists doc. split_and!; [done..|].
  intros i bd m d now t. by apply (tamper_detected s).
Qed.

Lemma chain_valid_until_tampered_witness :
  reachable Example.retired
  ∧ is_chain_valid Example.retired = Ok true
  ∧ ∃ doc, storage Example.retired = Some doc
           ∧ is_chain_valid
               (GreenChain_init 4 (Some (tamper (SetData ∅) 1 doc)) "" "")
             = Ok false
           ∧ is_chain_valid
               (GreenChain_init 4 (Some (tamper (SetPreviousHash "0") 2 doc)) "" "")
             = Ok false.
Proof.
  destruct (chain_valid_until_tampered Example.retired example_retired_reachable)
    as (Hvalid & doc & Hst & Hdoc & Htamper).
  split; [apply example_retired_reachable|]. split; [exact Hvalid|].
  exists doc. split; [exact Hst|].
  injection Hst as <-.
  split; eapply Htamper; try reflexivity; try lia; by vm_compute.
Defined.

(** C3 as stated fails on the genesis block: with its payload emptied, or its
    [previous_hash] replaced, in the file of a ledger that holds one
    certificate, the reloaded chain is still reported valid. *)
Lemma tampered_genesis_undetected :
  reachable Example.issued
  ∧ ∃ doc g, storage Example.issued = Some doc
             ∧ doc_chain doc !! 0%nat = Some g
             ∧ d_data g ≠ ∅
             ∧ d_previous_hash g ≠ "f00d"
             ∧ is_chain_valid
                 (GreenChain_init 4 (Some (tamper (SetData ∅) 0 doc)) "" "")
               = Ok true
             ∧ is_chain_valid
                 (GreenChain_init 4 (Some (tamper (SetPreviousHash "f00d") 0 doc)) "" "")
               = Ok true.
Proof.
  split; [apply example_issued_reachable|].
  do 2 eexists. split_and!; [reflexivity|reflexivity|by vm_compute..].
Qed.

(** C9. On every state reachable by issue and retire calls, a block returned
    by [mine_block] passes [is_valid_block], so [add_block] returns true; a
    call of [issue_certificate] that returns never raises the failure of
    [add_block], and a call of [retire_certificate] that returns false has
    found nothing to retire and has changed nothing. *)
Theorem mined_block_accepted (s : GreenChain) :
  reachable s →
  (∀ fuel t payload b,
      mine_block s fuel t payload = Some b →
      is_valid_block s b = Ok true ∧ (add_block s b).1 = Ok true)
  ∧ (∀ fuel uuid now t d r s',
        issue_certificate s fuel uuid now t d = Some (r, s') →
        r ≠ Raise add_failed
        ∧ ((r = Raise duplicate_id ∧ s' = s) ∨ ∃ h, r = Ok h))
  ∧ (∀ fuel now t h r s',
        retire_certificate s fuel now t h = Some (r, s') →
        r = Ok true ∨ (r = Ok false ∧ s' = s)).
Proof.
  intros [Hc _]%reachable_wf. split_and!.
  - intros fuel t payload b Hm.
    destruct (mine_block_spec _ _ _ _ _ Hc Hm) as (Hv & _).
    by rewrite (add_block_valid _ _ Hv).
  - intros fuel uuid now t d r s' Hcall.
    destruct (issue_certificate_inv _ _ _ _ _ _ _ _ Hc Hcall)
      as [(_ & -> & ->)|(b & _ & _ & -> & _)].
    + split; [done|by left].
    + split; [done|right; by eexists].
  - intros fuel now t h r s' Hcall.
    destruct (retire_certificate_inv _ _ _ _ _ _ _ Hc Hcall)
      as [(-> & -> & _)|(cid & ci & b & _ & _ & _ & -> & _)]; auto.
Qed.

Lemma mined_block_accepted_witness :
  reachable Example.issued
  ∧ (∀ fuel t payload b,
        mine_block Example.issued fuel t payload = Some b →
        is_valid_block Example.issued b = Ok true
        ∧ (add_block Example.issued b).1 = Ok true).
Proof.
  split; [apply example_issued_reachable|].
  apply (mined_block_accepted Example.issued example_issued_reachable).
Defined.

(** C8. For every state reachable by issue and retire calls, importing its
    export into a ledger (a fresh one in particular) succeeds and gives that
    ledger the chain, the certificate index (entries, their order and their
    status) and the retired set of the original; they are what the replay of
    the block sequence builds from empty indices, as the indices of the
    original are. *)
Theorem export_import_indices (s f : GreenChain) :
  reachable s →
  rebuild (clear_indices s) (chain s) = (Ok (), s)
  ∧ ∃ f', import_chain f (export_chain s) = (true, f')
          ∧ chain f' = chain s
          ∧ certificates f' = certificates s
          ∧ retired_certificates f' = retired_certificates s.
Proof.
  intros [_ [Hrep _ _]]%reachable_wf. split; [done|].
  unfold import_chain, export_chain. rewrite map_block_of_dict_to_dict.
  change (set_retired_certificates ∅ (set_certificates [] (set_chain (chain s) f)))
    with (reframe (chain s) (difficulty f) (storage f) (clear_indices s)).
  cbn [chain reframe]. rewrite rebuild_frame, Hrep. cbn.
  eexists. split; [reflexivity|]. done.
Qed.

Lemma export_import_indices_witness :
  reachable Example.retired
  ∧ ∃ f', import_chain Example.fresh (export_chain Example.retired) = (true, f')
          ∧ chain f' = chain Example.retired
          ∧ certificates f' = certificates Example.retired
          ∧ retired_certificates f' = retired_certificates Example.retired.
Proof.
  split; [apply example_retired_reachable|].
  apply (export_import_indices Example.retired Example.fresh
           example_retired_reachable).
Defined.

(** ** Issuing and retiring *)

Lemma mine_block_complete s fuel n t payload :
  solves s t payload n → (n ≤ fuel)%nat →
  ∃ j, (j ≤ n)%nat ∧ mine_block s fuel t payload = Some (candidate s t payload j).
Proof.
  intros Hs Hle. rewrite mine_block_candidate.
  unfold solves in Hs. rewrite candidate_iter in Hs.
  destruct (mine_loop_complete _ _ _ _ Hs Hle) as (j & Hj & Hm). eauto.
Qed.

(** The state left by a successful issuance verifies the returned hash. *)
Lemma verify_after_issue s b uuid payload :
  chain_wf s → index_wf s →
  od_mem (JStr uuid) (certificates s) = false →
  hash_unused s (hash b) →
  index b = Z.of_nat (length (chain s)) →
  verify_certificate
    (set_certificates
       (od_set (JStr uuid) (mkCertInfo (hash b) (index b) payload "active")
          (certificates s))
       (save_blockchain (set_chain (chain s ++ [b]) s)))
    (hash b)
  = Ok (true, payload).
Proof.
  intros Hc [_ Hret _] Hfresh Hunused Hidx.
  apply od_mem_false in Hfresh.
  unfold verify_certificate. cbn [certificates set_certificates].
  rewrite (od_set_fresh _ _ _ Hfresh), verify_loop_find.
  rewrite (find_by_hash_snoc (hash b)); [|by apply find_by_hash_None|done].
  unfold verify_entry. cbn.
  rewrite bool_decide_eq_false_2.
  2:{ intros Hin. apply Hret, od_mem_true in Hin. rewrite Hfresh in Hin.
      by destruct Hin. }
  rewrite Hidx, length_app. cbn [length].
  destruct (Z.ltb_spec (Z.of_nat (length (chain s)))
                       (Z.of_nat (length (chain s) + 1))); [|lia].
  rewrite (py_getitem_nat _ (length (chain s)) b) by (by apply list_lookup_middle).
  by rewrite bool_decide_eq_true_2.
Qed.

(** C1. On a state reachable by issue and retire calls, for every data
    record: when the generated identifier is new, some nonce [n] within the
    iteration bound seals the block, and no recorded certificate carries the
    hash of a candidate block up to [n] (no SHA-256 collision), then
    [issue_certificate] returns a hash [h], and [verify_certificate h] on the
    resulting state returns true with the payload recorded for [h]. *)
Theorem issue_then_verify (s : GreenChain) (fuel n : nat) (uuid now t : string)
    (d : dict) :
  reachable s →
  od_mem (JStr uuid) (certificates s) = false →
  solves s t (certificate_data uuid now d) n →
  (n ≤ fuel)%nat →
  (∀ m, (m ≤ n)%nat →
        hash_unused s (hash (candidate s t (certificate_data uuid now d) m))) →
  ∃ h s',
    issue_certificate s fuel uuid now t d = Some (Ok h, s')
    ∧ verify_certificate s' h = Ok (true, certificate_data uuid now d)
    ∧ ∃ ci, od_lookup (JStr uuid) (certificates s') = Some ci
            ∧ ci_hash ci = h
            ∧ ci_data ci = certificate_data uuid now d.
Proof.
  intros [Hc Hi]%reachable_wf Hfresh Hsolves Hfuel Hunused.
  destruct (mine_block_complete _ _ _ _ _ Hsolves Hfuel) as (j & Hj & Hm).
  set (b := candidate s t (certificate_data uuid now d) j) in *.
  destruct (mine_block_spec _ _ _ _ _ Hc Hm) as (Hv & Hidx & _ & _).
  exists (hash b),
    (set_certificates
       (od_set (JStr uuid)
          (mkCertInfo (hash b) (index b) (certificate_data uuid now d) "active")
          (certificates s))
       (save_blockchain (set_chain (chain s ++ [b]) s))).
  split_and!.
  - unfold issue_certificate. rewrite Hfresh, Hm, (add_block_valid _ _ Hv).
    reflexivity.
  - apply verify_after_issue; [done..|by apply Hunused|done].
  - exists (mkCertInfo (hash b) (index b) (certificate_data uuid now d) "active").
    split; [|done]. cbn. rewrite od_lookup_set. by case_decide.
Qed.

Lemma issue_then_verify_witness :
  reachable Example.fresh
  ∧ od_mem (JStr Example.uuid) (certificates Example.fresh) = false
  ∧ solves Example.fresh "1756548001.506169"
      (certificate_data Example.uuid Example.issued_at Example.wind_farm) 2
  ∧ ∃ h s',
      issue_certificate Example.fresh 8 Example.uuid Example.issued_at
        "1756548001.506169" Example.wind_farm = Some (Ok h, s')
      ∧ verify_certificate s' h
        = Ok (true, certificate_data Example.uuid Example.issued_at Example.wind_farm)
      ∧ ∃ ci, od_lookup (JStr Example.uuid) (certificates s') = Some ci
              ∧ ci_hash ci = h
              ∧ ci_data ci
                = certificate_data Example.uuid Example.issued_at Example.wind_farm.
Proof.
  assert (solves Example.fresh "1756548001.506169"
            (certificate_data Example.uuid Example.issued_at Example.wind_farm) 2)
    as Hsolves by (by vm_compute).
  split; [apply example_fresh_reachable|]. split; [reflexivity|].
  split; [exact Hsolves|].
  apply (issue_then_verify Example.fresh 8 2);
    [apply example_fresh_reachable|reflexivity|exact Hsolves|lia|].
  intros m _ k ci Hin. exfalso. exact (not_elem_of_nil _ Hin).
Defined.

Lemma find_by_hash_alter_status h st k items cid ci :
  find_by_hash h items = Some (cid, ci) →
  ∃ ci', find_by_hash h (od_alter (set_status st) k items) = Some (cid, ci').
Proof.
  induction items as [|[k' c] items IH]; [done|].
  cbn. case_decide; cbn; case_bool_decide; intros; simplify_eq; eauto.
Qed.

Lemma retire_unknown s fuel now t h :
  hash_unused s h → retire_certificate s fuel now t h = Some (Ok false, s).
Proof.
  intros Hu%find_by_hash_None. unfold retire_certificate.
  by rewrite retire_loop_find, Hu.
Qed.

Lemma later_reachable s s' : reachable s → later s s' → reachable s'.
Proof.
  intros Hs. induction 1; [done|by eapply reach_issue|by eapply reach_retire].
Qed.

Lemma find_by_hash_app_l h items items' k ci :
  find_by_hash h items = Some (k, ci) →
  find_by_hash h (items ++ items') = Some (k, ci).
Proof.
  induction items as [|[k' c] items IH]; [done|].
  cbn. by case_bool_decide.
Qed.

(** Once retired, the certificate found under [h] stays so. *)
Lemma retired_stays s s' h cid ci :
  reachable s → later s s' →
  find_by_hash h (certificates s) = Some (cid, ci) →
  cid ∈ retired_certificates s →
  ∃ ci', find_by_hash h (certificates s') = Some (cid, ci')
         ∧ cid ∈ retired_certificates s'.
Proof.
  intros Hs Hlater Hf Hr.
  induction Hlater as [|s1 fuel uuid now t payload r s2 Hl IH Hcall
                       |s1 fuel now t h' r s2 Hl IH Hcall]; [eauto|..];
    destruct IH as (ci1 & Hf1 & Hr1);
    destruct (reachable_wf s1 (later_reachable _ _ Hs Hl)) as [Hc _].
  - destruct (issue_certificate_inv _ _ _ _ _ _ _ _ Hc Hcall)
      as [(_ & _ & ->)|(b & Hfresh & _ & _ & ->)]; [eauto|].
    exists ci1. split; [|done]. cbn.
    rewrite od_set_fresh by by apply od_mem_false.
    by apply find_by_hash_app_l.
  - destruct (retire_certificate_inv _ _ _ _ _ _ _ Hc Hcall)
      as [(_ & -> & _)|(cid' & ci' & b & _ & _ & _ & _ & ->)]; [eauto|].
    destruct (find_by_hash_alter_status h "retired" cid' _ _ _ Hf1) as [ci2 Hf2].
    exists ci2. split; [done|]. cbn. set_solver.
Qed.

(** C2. On a state reachable by issue and retire calls, let [h] be the hash
    recorded for a certificate that is not retired, and let some nonce within
    the iteration bound seal the retirement block. Then
    [retire_certificate h] returns true and appends one block; after it, and
    after any further issue and retire calls, [retire_certificate h] returns
    false and leaves the state, hence the chain, as it is. On any state,
    retiring a hash that no certificate carries returns false, raises nothing
    and changes nothing. *)
Theorem retire_exactly_once (s : GreenChain) (fuel n : nat) (now t h : string)
    (cid : jvalue) (ci : CertInfo) :
  reachable s →
  find_by_hash h (certificates s) = Some (cid, ci) →
  cid ∉ retired_certificates s →
  solves s t (retirement_data cid h now) n →
  (n ≤ fuel)%nat →
  (∃ s1, retire_certificate s fuel now t h = Some (Ok true, s1)
         ∧ length (chain s1) = S (length (chain s))
         ∧ ∀ s2 fuel' now' t',
             later s1 s2 →
             retire_certificate s2 fuel' now' t' h = Some (Ok false, s2))
  ∧ (∀ s0 fuel' now' t' h',
       hash_unused s0 h' →
       retire_certificate s0 fuel' now' t' h' = Some (Ok false, s0)).
Proof.
  intros Hs Hf Hactive Hsolves Hfuel.
  destruct (reachable_wf s Hs) as [Hc Hi].
  split; [|intros; by apply retire_unknown].
  assert (chain_wf (mark_retired cid s)) as Hc1 by by apply (chain_wf_frame s).
  destruct (mine_block_complete (mark_retired cid s) fuel n t
              (retirement_data cid h now) Hsolves Hfuel) as (j & Hj & Hm).
  destruct (mine_block_spec _ _ _ _ _ Hc1 Hm) as (Hv & _).
  assert (retire_certificate s fuel now t h
          = Some (Ok true,
                  save_blockchain
                    (set_chain (chain s ++ [candidate s t (retirement_data cid h now) j])
                       (mark_retired cid s)))) as Hcall.
  { unfold retire_certificate. rewrite retire_loop_find, Hf.
    unfold retire_entry. rewrite bool_decide_eq_false_2 by done.
    rewrite Hm, (add_block_valid _ _ Hv). reflexivity. }
  eexists. split_and!; [exact Hcall| |].
  - cbn. rewrite length_app. cbn. lia.
  - intros s2 fuel' now' t' Hlater.
    destruct (find_by_hash_alter_status h "retired" cid _ _ _ Hf) as [ci' Hf'].
    destruct (retired_stays _ s2 h cid ci' (reach_retire _ _ _ _ _ _ _ Hs Hcall) Hlater)
      as (ci2 & Hf2 & Hr2); [exact Hf'|cbn; set_solver|].
    unfold retire_certificate. rewrite retire_loop_find, Hf2.
    unfold retire_entry. by rewrite bool_decide_eq_true_2.
Qed.

Lemma retire_exactly_once_witness :
  reachable Example.issued
  ∧ (∃ ci, find_by_hash Example.issued_hash (certificates Example.issued)
           = Some (JStr Example.uuid, ci))
  ∧ (JStr Example.uuid ∉ retired_certificates Example.issued)
  ∧ solves Example.issued "1756548002.512981"
      (retirement_data (JStr Example.uuid) Example.issued_hash Example.retired_at) 2
  ∧ ∃ s1, retire_certificate Example.issued 8 Example.retired_at
            "1756548002.512981" Example.issued_hash = Some (Ok true, s1)
          ∧ length (chain s1) = S (length (chain Example.issued))
          ∧ ∀ s2 fuel' now' t',
              later s1 s2 →
              retire_certificate s2 fuel' now' t' Example.issued_hash
              = Some (Ok false, s2).
Proof.
  assert (JStr Example.uuid ∉ retired_certificates Example.issued) as Hactive.
  { by vm_compute. }
  assert (solves Example.issued "1756548002.512981"
            (retirement_data (JStr Example.uuid) Example.issued_hash
               Example.retired_at) 2) as Hsolves by (vm_compute; reflexivity).
  split; [apply example_issued_reachable|].
  split; [eexists; reflexivity|]. split; [exact Hactive|]. split; [exact Hsolves|].
  eapply (retire_exactly_once Example.issued 8 2);
    [apply example_issued_reachable|reflexivity|exact Hactive|exact Hsolves|lia].
Defined.

(** ** Verification *)

Lemma verify_entry_true s cid ci expected d :
  verify_entry s cid ci expected = Ok (true, d)
  ↔ (cid ∉ retired_certificates s)
    ∧ ci_block_index ci < Z.of_nat (length (chain s))
    ∧ (∃ b, py_getitem (chain s) (ci_block_index ci) = Ok b ∧ hash b = expected)
    ∧ d = ci_data ci.
Proof.
  unfold verify_entry. case_bool_decide as Hr.
  { split; [done|]. by intros (? & _). }
  destruct (Z.ltb_spec (ci_block_index ci) (Z.of_nat (length (chain s)))) as [Hlt|Hge].
  2:{ split; [done|]. intros (_ & ? & _). lia. }
  destruct (py_getitem (chain s) (ci_block_index ci)) as [b|e].
  2:{ split; [done|]. by intros (_ & _ & (b & ? & _) & _). }
  case_bool_decide as Hh.
  - split.
    + intros [= <-]. eauto 10.
    + by intros (_ & _ & _ & ->).
  - split; [done|]. intros (_ & _ & (b' & [= <-] & ?) & _). done.
Qed.

(** Indexing a chain in which one block has another payload reaches a block
    with the same stored hash, or fails as before. *)
Lemma py_getitem_set_data payload i (l : list Block) j :
  match py_getitem l j with
  | Ok b => ∃ b', py_getitem (alter (set_data payload) i l) j = Ok b' ∧ hash b' = hash b
  | Raise e => py_getitem (alter (set_data payload) i l) j = Raise e
  end.
Proof.
  unfold py_getitem. rewrite length_alter.
  set (k := if j <? 0 then Z.of_nat (length l) + j else j).
  destruct (0 <=? k); [|done].
  destruct (decide (i = Z.to_nat k)) as [Heq|Hne].
  - rewrite Heq, list_lookup_alter_eq.
    destruct (l !! Z.to_nat k) as [b|]; cbn; [|done]. by eexists.
  - rewrite list_lookup_alter_ne by done.
    destruct (l !! Z.to_nat k) as [b|]; cbn; [|done]. by eexists.
Qed.

Lemma verify_entry_set_data s cid ci expected payload i :
  verify_entry (set_chain (alter (set_data payload) i (chain s)) s) cid ci expected
  = verify_entry s cid ci expected.
Proof.
  unfold verify_entry. cbn [retired_certificates chain set_chain].
  rewrite length_alter.
  pose proof (py_getitem_set_data payload i (chain s) (ci_block_index ci)) as Hget.
  destruct (py_getitem (chain s) (ci_block_index ci)) as [b|e].
  - destruct Hget as (b' & -> & ->). done.
  - by rewrite Hget.
Qed.

(** C6, as amended. [verify_certificate h] returns true with payload [d]
    exactly when the first certificate recorded under [h] is not retired, its
    recorded block index is below the chain length, the block found there has
    [h] as its stored [hash] field, and [d] is the payload kept in the index;
    [verify_certificate_by_id] makes the same checks on the entry of the
    identifier. The content of the block is not hashed again: giving a block
    another payload while keeping its stored hash leaves every answer of
    [verify_certificate] as it was. *)
Theorem verify_compares_stored_hash (s : GreenChain) (h : string) (d : dict) :
  (verify_certificate s h = Ok (true, d)
   ↔ ∃ cid ci, find_by_hash h (certificates s) = Some (cid, ci)
               ∧ (cid ∉ retired_certificates s)
               ∧ ci_block_index ci < Z.of_nat (length (chain s))
               ∧ (∃ b, py_getitem (chain s) (ci_block_index ci) = Ok b ∧ hash b = h)
               ∧ d = ci_data ci)
  ∧ (∀ cid, verify_certificate_by_id s cid = Ok (true, d)
            ↔ ∃ ci, od_lookup cid (certificates s) = Some ci
                    ∧ (cid ∉ retired_certificates s)
                    ∧ ci_block_index ci < Z.of_nat (length (chain s))
                    ∧ (∃ b, py_getitem (chain s) (ci_block_index ci) = Ok b
                            ∧ hash b = ci_hash ci)
                    ∧ d = ci_data ci)
  ∧ (∀ i payload,
       verify_certificate (set_chain (alter (set_data payload) i (chain s)) s) h
       = verify_certificate s h).
Proof.
  split_and!.
  - unfold verify_certificate. rewrite verify_loop_find.
    destruct (find_by_hash h (certificates s)) as [[cid ci]|].
    + rewrite verify_entry_true. split.
      * intros ?. by exists cid, ci.
      * by intros (? & ? & [= <- <-] & ?).
    + split; [done|]. by intros (? & ? & ? & _).
  - intros cid. unfold verify_certificate_by_id.
    destruct (od_lookup cid (certificates s)) as [ci|].
    + rewrite verify_entry_true. split.
      * intros ?. by exists ci.
      * by intros (? & [= <-] & ?).
    + split; [done|]. by intros (? & ? & _).
  - intros i payload. unfold verify_certificate. rewrite !verify_loop_find.
    cbn [certificates set_chain].
    destruct (find_by_hash h (certificates s)) as [[cid ci]|]; [|done].
    apply verify_entry_set_data.
Qed.

(** C6 as stated fails: in the document saved for the example ledger, the
    block of the certificate is given an empty payload and keeps its stored
    hash. In the ledger reloaded from it that block no longer hashes to the
    certificate hash, [is_chain_valid] is false, and [verify_certificate]
    still returns true with the payload of the index. *)
Lemma verify_accepts_altered_block :
  storage (save_blockchain Example.issued) = Some Example.issued_document
  ∧ ∃ s2 b,
      s2 = GreenChain_init 4
             (Some (tamper (SetData ∅) 1 Example.issued_document)) "" ""
      ∧ chain s2 !! 1%nat = Some b
      ∧ data b = ∅
      ∧ hash b = Example.issued_hash
      ∧ calculate_hash b ≠ Example.issued_hash
      ∧ is_chain_valid s2 = Ok false
      ∧ verify_certificate s2 Example.issued_hash
        = Ok (true,
              certificate_data Example.uuid Example.issued_at Example.wind_farm).
Proof.
  split; [reflexivity|].
  eexists. eexists. split; [vm_compute; reflexivity|].
  split; [reflexivity|].
  split; [reflexivity|]. split; [reflexivity|].
  split; [vm_compute; discriminate|].
  split; [vm_compute; reflexivity..].
Qed.

(** ** Issuance without validation *)

Lemma certificate_data_field uuid now d k :
  k ∈ certificate_fields →
  certificate_data uuid now d !! k = Some (dict_get d k).
Proof.
  unfold certificate_fields. rewrite !elem_of_cons, elem_of_nil.
  intros Hk. repeat (destruct Hk as [->|Hk]; [reflexivity|]). done.
Qed.

(** C7, as amended. [issue_certificate] validates no field. On a state
    reachable by issue and retire calls, when some nonce within the iteration
    bound seals the block: if the generated identifier is already in the
    certificate index the call raises the duplicate-identifier exception and
    the state (chain, certificate index, retired set, file) is unchanged;
    otherwise the certificate is issued on one new block, whatever the data
    record holds, each absent field being recorded as null. *)
Theorem issue_validates_nothing (s : GreenChain) (fuel n : nat)
    (uuid now t : string) (d : dict) :
  reachable s →
  solves s t (certificate_data uuid now d) n →
  (n ≤ fuel)%nat →
  if od_mem (JStr uuid) (certificates s)
  then issue_certificate s fuel uuid now t d = Some (Raise duplicate_id, s)
  else ∃ b s',
         issue_certificate s fuel uuid now t d = Some (Ok (hash b), s')
         ∧ chain s' = chain s ++ [b]
         ∧ data b = certificate_data uuid now d
         ∧ od_lookup (JStr uuid) (certificates s')
           = Some (mkCertInfo (hash b) (index b) (data b) "active")
         ∧ ∀ k, k ∈ certificate_fields → d !! k = None → data b !! k = Some JNull.
Proof.
  intros [Hc Hi]%reachable_wf Hsolves Hfuel.
  destruct (od_mem (JStr uuid) (certificates s)) eqn:Hmem.
  { unfold issue_certificate. by rewrite Hmem. }
  destruct (mine_block_complete _ _ _ _ _ Hsolves Hfuel) as (j & Hj & Hm).
  set (b := candidate s t (certificate_data uuid now d) j) in *.
  destruct (mine_block_spec _ _ _ _ _ Hc Hm) as (Hv & Hidx & Hd & _).
  exists b,
    (set_certificates
       (od_set (JStr uuid)
          (mkCertInfo (hash b) (index b) (certificate_data uuid now d) "active")
          (certificates s))
       (save_blockchain (set_chain (chain s ++ [b]) s))).
  split_and!.
  - unfold issue_certificate. rewrite Hmem, Hm, (add_block_valid _ _ Hv).
    reflexivity.
  - reflexivity.
  - exact Hd.
  - cbn. rewrite od_lookup_set, Hd. by case_decide.
  - intros k Hk Hnone. rewrite Hd, (certificate_data_field _ _ _ _ Hk).
    unfold dict_get. by rewrite Hnone.
Qed.

Lemma issue_validates_nothing_witness :
  reachable Example.fresh
  ∧ solves Example.fresh "1756548001.636326"
      (certificate_data Example.uuid_empty Example.issued_at ∅) 1
  ∧ ∃ b s',
      issue_certificate Example.fresh 8 Example.uuid_empty Example.issued_at
        "1756548001.636326" ∅ = Some (Ok (hash b), s')
      ∧ chain s' = chain Example.fresh ++ [b]
      ∧ data b = certificate_data Example.uuid_empty Example.issued_at ∅
      ∧ od_lookup (JStr Example.uuid_empty) (certificates s')
        = Some (mkCertInfo (hash b) (index b) (data b) "active")
      ∧ ∀ k, k ∈ certificate_fields → (∅ : dict) !! k = None →
             data b !! k = Some JNull.
Proof.
  assert (solves Example.fresh "1756548001.636326"
            (certificate_data Example.uuid_empty Example.issued_at ∅) 1)
    as Hsolves by (by vm_compute).
  split; [apply example_fresh_reachable|]. split; [exact Hsolves|].
  apply (issue_validates_nothing Example.fresh 8 1 Example.uuid_empty
           Example.issued_at "1756548001.636326" ∅
           example_fresh_reachable Hsolves).
  lia.
Defined.

(** C7 as stated fails: a record with every field absent is issued on the
    example ledger. The call returns a hash, the chain grows to two blocks
    and the certificate enters the index with null fields. *)
Lemma issue_accepts_empty_record :
  issue_certificate Example.fresh 8 Example.uuid_empty Example.issued_at
    "1756548001.636326" ∅
  = Some (Ok "000072048e5fbac6f4ad0f9f9320ac3a6eda5e1e46d88bf063262c52e4fb4cfe",
          Example.issued_empty)
  ∧ length (chain Example.fresh) = 1%nat
  ∧ length (chain Example.issued_empty) = 2%nat
  ∧ ∃ ci, od_lookup (JStr Example.uuid_empty) (certificates Example.issued_empty)
          = Some ci
          ∧ ci_status ci = "active"
          ∧ Forall (λ k, dict_get (ci_data ci) k = JNull) certificate_fields.
Proof.
  split; [by vm_compute|]. split; [reflexivity|]. split; [reflexivity|].
  eexists. split; [reflexivity|]. split; [reflexivity|].
  repeat constructor.
Qed.

(** ** The event history *)

Lemma py_slice_from_last {A} (k : Z) (l : list A) :
  0 < k → py_slice_from (- k) l = RealTime.last_n (Z.to_nat k) l.
Proof.
  intros Hk. unfold py_slice_from, RealTime.last_n.
  destruct (Z.ltb_spec (- k) 0); [|lia]. f_equal. lia.
Qed.

(** With a positive limit the history query answers as expected: the last
    [limit] matching events, oldest first. *)
Lemma get_event_history_positive events ty limit :
  0 < limit →
  RealTime.get_event_history events ty limit
  = RealTime.last_n (Z.to_nat limit)
      (match ty with
       | Some (String c r) =>
           List.filter
             (λ e, bool_decide (RealTime.ev_type (RealTime.er_event e)
                                = JStr (String c r))) events
       | _ => events
       end).
Proof.
  intros Hk. unfold RealTime.get_event_history.
  destruct ty as [[|c r]|];
    (match goal with |- match ?l with _ => _ end = _ => destruct l eqn:Hl end;
     [by destruct (Z.to_nat limit)|by rewrite py_slice_from_last]).
Qed.

(** With limit 0 the slice [events[-0:]] is the whole list. *)
Lemma get_event_history_zero events :
  RealTime.get_event_history events None 0 = events.
Proof. by destruct events. Qed.

(** C10, at the failing input. The history holds two events and the query
    has no type filter and limit 0: both events are returned, where the claim
    asks for none. *)
Theorem history_limit_zero_returns_all :
  RealTime.get_event_history [Example.event_issued; Example.event_retired] None 0
  = [Example.event_issued; Example.event_retired].
Proof. reflexivity. Qed.

(** * Further properties of the ledger *)

(** ** The block log and the indices *)

Section odict_more.
Context {K V : Type} `{EqDecision K}.
Implicit Types (l : list (K * V)) (k : K) (v : V).

Lemma od_lookup_None_keys k l : od_lookup k l = None ↔ k ∉ l.*1.
Proof.
  induction l as [|[k' v'] l IH]; cbn.
  - split; [by intros _ ?%elem_of_nil|done].
  - case_decide as Hk; rewrite not_elem_of_cons.
    + split; [done|]. by intros [? _].
    + rewrite IH. naive_solver.
Qed.

Lemma od_alter_keys (f : V → V) k l : (od_alter f k l).*1 = l.*1.
Proof.
  induction l as [|[k' v'] l IH]; [done|].
  cbn. case_decide; cbn; by rewrite ?IH.
Qed.

Lemma od_alter_length (f : V → V) k l : length (od_alter f k l) = length l.
Proof. by rewrite <-(length_fmap fst), od_alter_keys, length_fmap. Qed.

Lemma od_alter_elem (f : V → V) k k' v l :
  (k', v) ∈ od_alter f k l → ∃ v0, (k', v0) ∈ l ∧ (v = v0 ∨ v = f v0).
Proof.
  induction l as [|[k'' v''] l IH]; [by intros ?%elem_of_nil|].
  cbn. case_decide.
  - intros [[= -> ->]|Hin]%elem_of_cons.
    + exists v''. split; [left|by right].
    + exists v. split; [by right|by left].
  - intros [[= -> ->]|Hin]%elem_of_cons.
    + exists v''. split; [left|by left].
    + destruct (IH Hin) as (v0 & ? & ?). exists v0. split; [by right|done].
Qed.
End odict_more.

Lemma issued_ids_snoc c b :
  issued_ids (c ++ [b])
  = issued_ids c
    ++ (if bool_decide (dict_get (data b) "type" = JStr "hydrogen_credit_certificate")
        then [dict_get (data b) "certificate_id"] else []).
Proof. unfold issued_ids. rewrite omap_app. cbn. by case_bool_decide. Qed.

Lemma retired_ids_snoc c b :
  retired_ids (c ++ [b])
  = retired_ids c
    ++ (if bool_decide (dict_get (data b) "type" = JStr "certificate_retirement")
        then [dict_get (data b) "certificate_id"] else []).
Proof. unfold retired_ids. rewrite omap_app. cbn. by case_bool_decide. Qed.

Lemma fresh_log_wf d now t : log_wf (GreenChain_init d None now t).
Proof.
  split; cbn.
  - intros [|[|i]] b [= <-]. apply shape_genesis.
  - reflexivity.
  - constructor.
  - unfold retired_ids. cbn. set_solver.
  - constructor.
  - reflexivity.
  - by intros k ci ?%elem_of_nil.
Qed.

Lemma issued_log_wf s b uuid now d :
  log_wf s →
  od_mem (JStr uuid) (certificates s) = false →
  index b = Z.of_nat (length (chain s)) →
  data b = certificate_data uuid now d →
  log_wf (set_certificates
            (od_set (JStr uuid)
               (mkCertInfo (hash b) (index b) (certificate_data uuid now d) "active")
               (certificates s))
            (save_blockchain (set_chain (chain s ++ [b]) s))).
Proof.
  intros [Hshape Hiss Hnd Hret Hrnd Hlen Hpts] Hfresh%od_mem_false Hidx Hd.
  split; cbn; rewrite ?(od_set_fresh _ _ _ Hfresh).
  - intros i c [Hc|[_ Hc]]%lookup_app_Some; [eauto|].
    apply list_lookup_singleton_Some in Hc as [_ <-]. rewrite Hd.
    apply shape_issued.
  - rewrite issued_ids_snoc, fmap_app, Hiss, Hd. reflexivity.
  - rewrite fmap_app. apply NoDup_app. split_and!; [done| |apply NoDup_singleton].
    intros k Hk [->|[]%elem_of_nil]%elem_of_cons.
    by apply od_lookup_None_keys in Hfresh.
  - rewrite retired_ids_snoc, Hd. cbn. by rewrite app_nil_r.
  - rewrite retired_ids_snoc, Hd. cbn. by rewrite app_nil_r.
  - rewrite !length_app. cbn. lia.
  - intros k ci [Hin|[= -> ->]%list_elem_of_singleton]%elem_of_app.
    + destruct (Hpts _ _ Hin) as (i & c & Hc & ?). exists i, c.
      split; [by apply lookup_app_l_Some|done].
    + exists (length (chain s)), b. rewrite Hd.
      split_and!; try done. by apply list_lookup_middle.
Qed.

Lemma retired_log_wf s b cid ci h now :
  log_wf s →
  (cid, ci) ∈ certificates s →
  cid ∉ retired_certificates s →
  data b = retirement_data cid h now →
  log_wf (save_blockchain (set_chain (chain s ++ [b]) (mark_retired cid s))).
Proof.
  intros [Hshape Hiss Hnd Hret Hrnd Hlen Hpts] Hin Hactive Hd.
  split; cbn.
  - intros i c [Hc|[_ Hc]]%lookup_app_Some; [eauto|].
    apply list_lookup_singleton_Some in Hc as [_ <-]. rewrite Hd.
    apply shape_retired.
  - rewrite issued_ids_snoc, od_alter_keys, Hiss, Hd. cbn. by rewrite app_nil_r.
  - by rewrite od_alter_keys.
  - rewrite retired_ids_snoc, Hd. cbn. rewrite list_to_set_app_L, Hret. cbn.
    set_solver.
  - rewrite retired_ids_snoc, Hd. cbn. apply NoDup_app.
    split_and!; [done| |apply NoDup_singleton].
    intros k Hk [->|[]%elem_of_nil]%elem_of_cons.
    apply Hactive. rewrite <-Hret. by apply elem_of_list_to_set.
  - rewrite length_app, od_alter_length, size_union, size_singleton by set_solver.
    cbn. lia.
  - intros k c Hk. apply od_alter_elem in Hk as (c0 & Hk & Hc).
    destruct (Hpts _ _ Hk) as (i & c' & Hc' & Hrest). exists i, c'.
    split; [by apply lookup_app_l_Some|].
    by destruct Hc as [->| ->].
Qed.

Lemma reachable_log_wf s : reachable s → log_wf s.
Proof.
  induction 1 as [d now t
                 |s fuel uuid now t payload r s' Hs IH Hcall
                 |s fuel now t h r s' Hs IH Hcall];
    [apply fresh_log_wf|..]; destruct (reachable_wf s Hs) as [Hc Hi].
  - destruct (issue_certificate_inv _ _ _ _ _ _ _ _ Hc Hcall)
      as [(_ & _ & ->)|(b & Hfresh & Hm & _ & ->)]; [done|].
    destruct (mine_block_spec _ _ _ _ _ Hc Hm) as (_ & Hidx & Hd & _).
    by apply issued_log_wf.
  - destruct (retire_certificate_inv _ _ _ _ _ _ _ Hc Hcall)
      as [(_ & -> & _)|(cid & ci & b & Hf & Hactive & Hm & _ & ->)]; [done|].
    assert (chain_wf (mark_retired cid s)) as Hc1 by by apply (chain_wf_frame s).
    destruct (mine_block_spec _ _ _ _ _ Hc1 Hm) as (_ & _ & Hd & _).
    apply find_by_hash_Some in Hf as [Hin _].
    by eapply retired_log_wf.
Qed.

(** X1. In every ledger reached by issue and retire calls, the issuance
    blocks of the chain carry exactly the identifiers of the certificate
    index, in the order of the index and each once; the retirement blocks
    carry exactly the identifiers of the retired set, each once, and every
    one of them has an issuance block. *)
Theorem one_block_per_event (s : GreenChain) :
  reachable s →
  issued_ids (chain s) = (certificates s).*1
  ∧ NoDup (issued_ids (chain s))
  ∧ NoDup (retired_ids (chain s))
  ∧ list_to_set (retired_ids (chain s)) = retired_certificates s
  ∧ ∀ cid, cid ∈ retired_ids (chain s) → cid ∈ issued_ids (chain s).
Proof.
  intros Hs. destruct (reachable_log_wf s Hs) as [_ Hiss Hnd Hret Hrnd _ _].
  destruct (reachable_wf s Hs) as [_ [_ Hsub _]].
  split_and!; [done|by rewrite Hiss|done..|].
  intros cid Hcid. rewrite Hiss.
  assert (cid ∈ retired_certificates s) as Hr.
  { rewrite <-Hret. by apply elem_of_list_to_set. }
  apply Hsub, od_mem_true in Hr.
  destruct (decide (cid ∈ (certificates s).*1)) as [|Hn]; [done|].
  apply od_lookup_None_keys in Hn. rewrite Hn in Hr. by destruct Hr.
Qed.

Lemma one_block_per_event_witness :
  reachable Example.retired
  ∧ issued_ids (chain Example.retired) = [JStr Example.uuid]
  ∧ retired_ids (chain Example.retired) = [JStr Example.uuid]
  ∧ issued_ids (chain Example.retired) = (certificates Example.retired).*1
  ∧ list_to_set (retired_ids (chain Example.retired))
    = retired_certificates Example.retired.
Proof.
  destruct (one_block_per_event Example.retired example_retired_reachable)
    as (Hiss & _ & _ & Hret & _).
  split; [apply example_retired_reachable|].
  split; [reflexivity|]. split; [reflexivity|]. by split.
Defined.

(** ** Counters *)

Lemma retired_at_most_issued s :
  reachable s → (size (retired_certificates s) ≤ length (certificates s))%nat.
Proof.
  intros Hs. destruct (reachable_log_wf s Hs) as [_ _ Hnd _ _ _ _].
  destruct (reachable_wf s Hs) as [_ [_ Hsub _]].
  rewrite <-(length_fmap fst), <-(size_list_to_set (C := gset jvalue)) by done.
  apply subseteq_size. intros k Hk. apply elem_of_list_to_set.
  apply Hsub, od_mem_true in Hk.
  destruct (decide (k ∈ (certificates s).*1)) as [|Hn]; [done|].
  apply od_lookup_None_keys in Hn. rewrite Hn in Hk. by destruct Hk.
Qed.

(** X2. On every ledger reached by issue and retire calls [get_chain_info]
    returns (it does not raise), reports a valid chain and the hash of the
    last block, and its counters add up: the number of blocks is one (the
    genesis block) plus the number of certificates plus the number of
    retired certificates, and the number of active certificates is not
    negative. *)
Theorem chain_info_counters (s : GreenChain) (now : string) :
  reachable s →
  ∃ info b,
    get_chain_info s now = Ok info
    ∧ chain_valid info = true
    ∧ total_blocks info = 1 + total_certificates info + count_retired info
    ∧ active_certificates info = total_certificates info - count_retired info
    ∧ 0 ≤ active_certificates info
    ∧ last (chain s) = Some b
    ∧ last_block_hash info = Some (hash b).
Proof.
  intros Hs. destruct (reachable_wf s Hs) as [Hc _].
  destruct (latest_block s Hc) as (b & Hb & _).
  unfold get_chain_info. rewrite (chain_wf_valid s Hc).
  eexists. exists b. split; [reflexivity|]. cbn.
  pose proof (log_length s (reachable_log_wf s Hs)) as Hlen.
  pose proof (retired_at_most_issued s Hs) as Hle.
  split_and!; [done|lia|done|lia|done|by rewrite Hb].
Qed.

Lemma chain_info_counters_witness :
  reachable Example.retired
  ∧ ∃ info,
      get_chain_info Example.retired "2025-08-30T10:00:03+00:00" = Ok info
      ∧ total_blocks info = 3 ∧ total_certificates info = 1
      ∧ count_retired info = 1 ∧ active_certificates info = 0
      ∧ chain_valid info = true.
Proof.
  split; [apply example_retired_reachable|].
  destruct (chain_info_counters Example.retired "2025-08-30T10:00:03+00:00"
              example_retired_reachable)
    as (info & b & Hinfo & Hvalid & _).
  exists info. split; [exact Hinfo|].
  unfold get_chain_info in Hinfo.
  destruct (is_chain_valid Example.retired) as [v|e]; [|discriminate Hinfo].
  injection Hinfo as <-. cbn in Hvalid. subst v.
  repeat split; vm_compute; reflexivity.
Defined.

(** ** Verification on a reachable ledger *)

Lemma verify_entry_reachable s k ci :
  reachable s →
  (k, ci) ∈ certificates s →
  verify_entry s k ci (ci_hash ci)
  = if bool_decide (k ∈ retired_certificates s)
    then Ok (false, retired_error) else Ok (true, ci_data ci).
Proof.
  intros Hs Hin. destruct (reachable_log_wf s Hs) as [_ _ _ _ _ _ Hpts].
  destruct (Hpts _ _ Hin) as (i & b & Hb & Hidx & Hh & _).
  unfold verify_entry. case_bool_decide; [done|].
  pose proof (lookup_lt_Some _ _ _ Hb) as Hlt. rewrite Hidx.
  destruct (Z.ltb_spec (Z.of_nat i) (Z.of_nat (length (chain s)))); [|lia].
  rewrite (py_getitem_nat _ _ _ Hb). by rewrite bool_decide_eq_true_2.
Qed.

Lemma verify_loop_reachable s h :
  reachable s →
  verify_certificate s h
  = match find_by_hash h (certificates s) with
    | None => Ok (false, error_dict "Certificate not found")
    | Some (cert_id, cert_info) =>
        if bool_decide (cert_id ∈ retired_certificates s)
        then Ok (false, retired_error)
        else Ok (true, ci_data cert_info)
    end.
Proof.
  intros Hs. unfold verify_certificate. rewrite verify_loop_find.
  destruct (find_by_hash h (certificates s)) as [[k ci]|] eqn:Hf; [|done].
  apply find_by_hash_Some in Hf as [Hin <-].
  by apply verify_entry_reachable.
Qed.

(** X3. On every ledger reached by issue and retire calls,
    [verify_certificate] has three answers only: not found when no
    certificate carries the hash, retired when the first certificate under
    the hash is retired, and otherwise valid with the recorded payload. It
    never raises and never answers that the block is missing from the
    chain. *)
Theorem verify_certificate_reachable (s : GreenChain) (h : string) :
  reachable s →
  verify_certificate s h
  = match find_by_hash h (certificates s) with
    | None => Ok (false, error_dict "Certificate not found")
    | Some (cert_id, cert_info) =>
        if bool_decide (cert_id ∈ retired_certificates s)
        then Ok (false, retired_error)
        else Ok (true, ci_data cert_info)
    end.
Proof. exact (verify_loop_reachable s h). Qed.

Lemma verify_certificate_reachable_witness :
  reachable Example.retired
  ∧ verify_certificate Example.retired Example.issued_hash
    = Ok (false, retired_error)
  ∧ verify_certificate Example.retired "00"
    = Ok (false, error_dict "Certificate not found").
Proof.
  split; [apply example_retired_reachable|].
  split; rewrite (verify_certificate_reachable _ _ example_retired_reachable);
    reflexivity.
Defined.

(** X4. On every ledger reached by issue and retire calls,
    [verify_certificate_by_id] answers not found for an identifier outside
    the index, retired for a retired identifier, and otherwise valid with
    the recorded payload; it never raises. *)
Theorem verify_by_id_reachable (s : GreenChain) (cert_id : jvalue) :
  reachable s →
  verify_certificate_by_id s cert_id
  = match od_lookup cert_id (certificates s) with
    | None => Ok (false, error_dict "Certificate ID not found")
    | Some cert_info =>
        if bool_decide (cert_id ∈ retired_certificates s)
        then Ok (false, retired_error)
        else Ok (true, ci_data cert_info)
    end.
Proof.
  intros Hs. unfold verify_certificate_by_id.
  destruct (od_lookup cert_id (certificates s)) as [ci|] eqn:Hl; [|done].
  apply verify_entry_reachable; [done|]. by apply od_lookup_Some_elem.
Qed.

Lemma verify_by_id_reachable_witness :
  reachable Example.retired
  ∧ verify_certificate_by_id Example.retired (JStr Example.uuid)
    = Ok (false, retired_error)
  ∧ verify_certificate_by_id Example.retired (JStr "no-such-id")
    = Ok (false, error_dict "Certificate ID not found").
Proof.
  split; [apply example_retired_reachable|].
  split; rewrite (verify_by_id_reachable _ _ example_retired_reachable);
    reflexivity.
Defined.

Lemma status_loop_find s h items :
  status_loop s h items
  = match find_by_hash h items with
    | None => "not_found"
    | Some (cert_id, _) =>
        if bool_decide (cert_id ∈ retired_certificates s) then "retired" else "active"
    end.
Proof.
  induction items as [|[k ci] items IH]; [done|].
  cbn. by case_bool_decide.
Qed.

Lemma by_hash_loop_find s h items :
  by_hash_loop s h items
  = match find_by_hash h items with
    | None => None
    | Some (cert_id, cert_info) =>
        Some (mkCertView cert_id (ci_hash cert_info) (ci_data cert_info)
                (if bool_decide (cert_id ∈ retired_certificates s)
                 then "retired" else "active"))
    end.
Proof.
  induction items as [|[k ci] items IH]; [done|].
  cbn. by case_bool_decide.
Qed.

(** X5. On every ledger reached by issue and retire calls the three lookups
    by hash agree: [verify_certificate] answers valid exactly when
    [get_certificate_status] is ["active"], and then with the payload that
    [get_certificate_by_hash] returns; the status is ["not_found"] exactly
    when [get_certificate_by_hash] returns nothing, which is when no
    certificate carries the hash. *)
Theorem lookups_by_hash_agree (s : GreenChain) (h : string) :
  reachable s →
  (∀ d, verify_certificate s h = Ok (true, d)
        ↔ get_certificate_status s h = "active"
          ∧ cv_data <$> get_certificate_by_hash s h = Some d)
  ∧ (get_certificate_status s h = "not_found" ↔ get_certificate_by_hash s h = None)
  ∧ (get_certificate_by_hash s h = None ↔ hash_unused s h)
  ∧ (∀ v, get_certificate_by_hash s h = Some v →
          cv_status v = get_certificate_status s h ∧ cv_hash v = h).
Proof.
  intros Hs. rewrite (verify_loop_reachable s h Hs).
  unfold get_certificate_status, get_certificate_by_hash, hash_unused.
  rewrite status_loop_find, by_hash_loop_find, <-find_by_hash_None.
  destruct (find_by_hash h (certificates s)) as [[k ci]|] eqn:Hf.
  - apply find_by_hash_Some in Hf as [_ Hh].
    split_and!.
    + intros d. case_bool_decide; cbn; naive_solver.
    + by case_bool_decide.
    + done.
    + by intros v [= <-].
  - split_and!; try done. intros d. cbn. naive_solver.
Qed.

Lemma lookups_by_hash_agree_witness :
  reachable Example.issued
  ∧ get_certificate_status Example.issued Example.issued_hash = "active"
  ∧ get_certificate_status Example.retired Example.issued_hash = "retired"
  ∧ get_certificate_status Example.retired "00" = "not_found"
  ∧ (∀ d, verify_certificate Example.issued Example.issued_hash = Ok (true, d)
          ↔ get_certificate_status Example.issued Example.issued_hash = "active"
            ∧ cv_data <$> get_certificate_by_hash Example.issued Example.issued_hash
              = Some d).
Proof.
  split; [apply example_issued_reachable|].
  split; [reflexivity|]. split; [reflexivity|]. split; [reflexivity|].
  apply (lookups_by_hash_agree Example.issued Example.issued_hash
           example_issued_reachable).
Defined.

(** X6. After [retire_certificate h] has returned true on a ledger reached
    by issue and retire calls, and after any further issue and retire calls,
    [verify_certificate h] answers invalid with the retired error and
    [get_certificate_status h] is ["retired"]. *)
Theorem retired_certificate_stays_invalid (s s1 s2 : GreenChain) (fuel : nat)
    (now t h : string) :
  reachable s →
  retire_certificate s fuel now t h = Some (Ok true, s1) →
  later s1 s2 →
  verify_certificate s2 h = Ok (false, retired_error)
  ∧ get_certificate_status s2 h = "retired".
Proof.
  intros Hs Hcall Hlater.
  destruct (reachable_wf s Hs) as [Hc _].
  destruct (retire_certificate_inv _ _ _ _ _ _ _ Hc Hcall)
    as [([=] & _)|(cid & ci & b & Hf & _ & _ & _ & Hs1)].
  pose proof (reach_retire _ _ _ _ _ _ _ Hs Hcall) as Hr1.
  destruct (find_by_hash_alter_status h "retired" cid _ _ _ Hf) as [ci' Hf'].
  destruct (retired_stays s1 s2 h cid ci' Hr1 Hlater) as (ci2 & Hf2 & Hr2).
  { by rewrite Hs1. }
  { rewrite Hs1. cbn. set_solver. }
  rewrite (verify_loop_reachable s2 h (later_reachable _ _ Hr1 Hlater)).
  unfold get_certificate_status. rewrite status_loop_find, Hf2.
  by rewrite bool_decide_eq_true_2.
Qed.

Lemma retired_certificate_stays_invalid_witness :
  reachable Example.issued
  ∧ retire_certificate Example.issued 8 Example.retired_at "1756548002.512981"
      Example.issued_hash = Some (Ok true, Example.retired)
  ∧ later Example.retired Example.retired
  ∧ verify_certificate Example.retired Example.issued_hash
    = Ok (false, retired_error)
  ∧ get_certificate_status Example.retired Example.issued_hash = "retired".
Proof.
  split; [apply example_issued_reachable|]. split; [apply example_retire|].
  split; [constructor|].
  apply (retired_certificate_stays_invalid Example.issued Example.retired
           Example.retired 8 Example.retired_at "1756548002.512981"
           Example.issued_hash example_issued_reachable example_retire).
  constructor.
Defined.

(** ** An append-only log *)

Lemma od_lookup_app_l {K V} `{EqDecision K} (k : K) (v : V) l l' :
  od_lookup k l = Some v → od_lookup k (l ++ l') = Some v.
Proof.
  induction l as [|[k' v'] l IH]; [done|]. cbn. by case_decide.
Qed.

Lemma extends_refl s : extends s s.
Proof. split_and!; [done..|]. intros k ci Hl. by exists ci. Qed.

Lemma extends_trans s1 s2 s3 : extends s1 s2 → extends s2 s3 → extends s1 s3.
Proof.
  intros (Hc1 & Hr1 & Hi1) (Hc2 & Hr2 & Hi2). split_and!.
  - by etrans.
  - by etrans.
  - intros k ci Hl. destruct (Hi1 _ _ Hl) as (ci' & Hl' & <- & <- & <-).
    by apply Hi2.
Qed.

Lemma issue_extends s fuel uuid now t d r s' :
  chain_wf s →
  issue_certificate s fuel uuid now t d = Some (r, s') → extends s s'.
Proof.
  intros Hc Hcall.
  destruct (issue_certificate_inv _ _ _ _ _ _ _ _ Hc Hcall)
    as [(_ & _ & ->)|(b & Hfresh & _ & _ & ->)]; [apply extends_refl|].
  split_and!; cbn.
  - by apply prefix_app_r.
  - done.
  - intros k ci Hl. exists ci. split; [|done].
    rewrite od_set_fresh by by apply od_mem_false.
    by apply od_lookup_app_l.
Qed.

Lemma retire_extends s fuel now t h r s' :
  chain_wf s →
  retire_certificate s fuel now t h = Some (r, s') → extends s s'.
Proof.
  intros Hc Hcall.
  destruct (retire_certificate_inv _ _ _ _ _ _ _ Hc Hcall)
    as [(_ & -> & _)|(cid & ci & b & _ & _ & _ & _ & ->)]; [apply extends_refl|].
  split_and!; cbn.
  - by apply prefix_app_r.
  - set_solver.
  - intros k c Hl. rewrite od_lookup_alter, Hl. case_decide; by eexists.
Qed.

(** X7. The ledger is append-only. From a ledger reached by issue and retire
    calls, further calls only add blocks at the end of the chain, only add
    identifiers to the retired set, and keep every certificate of the index
    with its hash, block index and payload. *)
Theorem ledger_append_only (s s' : GreenChain) :
  reachable s → later s s' → extends s s'.
Proof.
  intros Hs. induction 1 as [|s1 fuel uuid now t payload r s2 Hl IH Hcall
                             |s1 fuel now t h r s2 Hl IH Hcall].
  - apply extends_refl.
  - destruct (reachable_wf s1 (later_reachable _ _ Hs Hl)) as [Hc _].
    eapply extends_trans; [exact IH|by eapply issue_extends].
  - destruct (reachable_wf s1 (later_reachable _ _ Hs Hl)) as [Hc _].
    eapply extends_trans; [exact IH|by eapply retire_extends].
Qed.

Lemma ledger_append_only_witness :
  reachable Example.fresh
  ∧ later Example.fresh Example.retired
  ∧ extends Example.fresh Example.retired.
Proof.
  assert (later Example.fresh Example.retired) as Hlater.
  { eapply later_retire; [|apply example_retire].
    eapply later_issue; [apply later_refl|apply example_issue]. }
  split; [apply example_fresh_reachable|]. split; [exact Hlater|].
  exact (ledger_append_only _ _ example_fresh_reachable Hlater).
Defined.

(** ** Persistence *)

Lemma save_then_load_gen (s : GreenChain) (now t : string) :
  chain s ≠ [] →
  GreenChain_init (difficulty s) (storage (save_blockchain s)) now t
  = save_blockchain s.
Proof.
  intros Hne. cbn [storage save_blockchain set_storage].
  rewrite init_loaded.
  2:{ cbn. by destruct (chain s). }
  cbn. rewrite map_block_of_dict_to_dict, list_to_set_elements_L.
  reflexivity.
Qed.



(** X9. The file lags behind an issuance: [add_block] saves before
    [issue_certificate] records the certificate. On a ledger reached by issue
    and retire calls, after an issuance that returns [h] (a hash that no
    earlier certificate carries), the ledger reloaded from the file has the
    new block in its chain and the certificate index of before the call, so
    [verify_certificate h], valid on the running ledger, answers not found
    on the reloaded one. *)
Theorem reload_after_issue_forgets (s s' : GreenChain) (fuel : nat)
    (uuid now t h now' t' : string) (d : dict) :
  reachable s →
  issue_certificate s fuel uuid now t d = Some (Ok h, s') →
  hash_unused s h →
  verify_certificate s' h = Ok (true, certificate_data uuid now d)
  ∧ chain (GreenChain_init (difficulty s') (storage s') now' t') = chain s'
  ∧ certificates (GreenChain_init (difficulty s') (storage s') now' t')
    = certificates s
  ∧ verify_certificate (GreenChain_init (difficulty s') (storage s') now' t') h
    = Ok (false, error_dict "Certificate not found").
Proof.
  intros Hs Hcall Hunused. destruct (reachable_wf s Hs) as [Hc Hi].
  destruct (issue_certificate_inv _ _ _ _ _ _ _ _ Hc Hcall)
    as [(_ & [=] & _)|(b & Hfresh & Hm & [= ->] & ->)].
  destruct (mine_block_spec _ _ _ _ _ Hc Hm) as (_ & Hidx & _ & _).
  split; [by apply verify_after_issue|].
  cbn [storage difficulty set_certificates save_blockchain set_storage set_chain].
  rewrite init_loaded.
  2:{ cbn. rewrite map_app. by destruct (map to_dict (chain s)). }
  cbn. rewrite map_block_of_dict_to_dict. split_and!; [done..|].
  unfold verify_certificate. rewrite verify_loop_find. cbn.
  by apply find_by_hash_None in Hunused as ->.
Qed.

Lemma reload_after_issue_forgets_witness :
  reachable Example.fresh
  ∧ issue_certificate Example.fresh 8 Example.uuid Example.issued_at
      "1756548001.506169" Example.wind_farm
    = Some (Ok Example.issued_hash, Example.issued)
  ∧ hash_unused Example.fresh Example.issued_hash
  ∧ verify_certificate
      (GreenChain_init (difficulty Example.issued) (storage Example.issued) "" "")
      Example.issued_hash
    = Ok (false, error_dict "Certificate not found").
Proof.
  assert (hash_unused Example.fresh Example.issued_hash) as Hunused.
  { intros k ci Hin. exfalso. exact (not_elem_of_nil _ Hin). }
  split; [apply example_fresh_reachable|]. split; [apply example_issue|].
  split; [exact Hunused|].
  apply (reload_after_issue_forgets Example.fresh Example.issued 8 Example.uuid
           Example.issued_at "1756548001.506169" Example.issued_hash "" ""
           Example.wind_farm example_fresh_reachable example_issue Hunused).
Defined.

(** ** The nonce search *)

Lemma mine_loop_least fuel d b b' :
  mine_loop fuel d b = Some b' →
  ∃ k, (k ≤ fuel)%nat
       ∧ b' = Nat.iter k next_nonce b
       ∧ ∀ j, (j < k)%nat → pow_ok d (hash (Nat.iter j next_nonce b)) = false.
Proof.
  revert b. induction fuel as [|fuel IH]; intros b; cbn [mine_loop];
    destruct (pow_ok d (hash b)) eqn:Hpow; intros Hm; simplify_eq.
  - exists 0%nat. split_and!; [lia|done|lia].
  - exists 0%nat. split_and!; [lia|done|lia].
  - destruct (IH _ Hm) as (k & Hk & -> & Hleast).
    exists (S k). split_and!; [lia|by rewrite Nat.iter_succ_r|].
    intros [|j] Hj; [done|]. rewrite Nat.iter_succ_r. apply Hleast. lia.
Qed.

Lemma nonce_iter k b : nonce (Nat.iter k next_nonce b) = nonce b + Z.of_nat k.
Proof.
  induction k as [|k IH]; [cbn; lia|].
  rewrite Nat.iter_succ. cbn [next_nonce nonce set_hash set_nonce]. lia.
Qed.

(** X10. [mine_block] returns the block with the least nonce that seals the
    payload: the nonce is the number of loop iterations made, every smaller
    nonce gives a hash without the required zeros, and a larger iteration
    bound gives the same block. *)
Theorem mine_block_least_nonce (s : GreenChain) (fuel : nat) (t : string)
    (payload : dict) (b : Block) :
  mine_block s fuel t payload = Some b →
  ∃ k, (k ≤ fuel)%nat
       ∧ b = candidate s t payload k
       ∧ nonce b = Z.of_nat k
       ∧ pow_ok (difficulty s) (hash b) = true
       ∧ (∀ j, (j < k)%nat →
               pow_ok (difficulty s) (hash (candidate s t payload j)) = false)
       ∧ ∀ fuel', (fuel ≤ fuel')%nat → mine_block s fuel' t payload = Some b.
Proof.
  rewrite mine_block_candidate. intros Hm.
  assert (hash (candidate s t payload 0) = calculate_hash (candidate s t payload 0))
    as Hh0 by exact (new_Block_hash _ _ _ _ _).
  destruct (mine_loop_least _ _ _ _ Hm) as (k & Hk & -> & Hleast).
  destruct (mine_loop_sound _ _ _ _ Hm Hh0) as (_ & _ & Hpow).
  exists k. split_and!; [done|done| |done|done|].
  - rewrite nonce_iter. unfold candidate. cbn. lia.
  - intros fuel' Hle. rewrite mine_block_candidate.
    destruct (mine_loop_complete k fuel' _ _ Hpow ltac:(lia)) as (j & Hj & Hm').
    rewrite Hm'. destruct (decide (j = k)) as [->|Hne]; [done|].
    destruct (mine_loop_sound _ _ _ _ Hm' Hh0) as (_ & _ & Hpowj).
    rewrite (Hleast j) in Hpowj by lia. done.
Qed.

Lemma mine_block_least_nonce_witness :
  ∃ b, mine_block Example.fresh 8 "1756548001.506169"
         (certificate_data Example.uuid Example.issued_at Example.wind_farm)
       = Some b
       ∧ nonce b = 2
       ∧ hash b = Example.issued_hash
       ∧ ∀ j, (j < 2)%nat →
              pow_ok 4
                (hash (candidate Example.fresh "1756548001.506169"
                         (certificate_data Example.uuid Example.issued_at
                            Example.wind_farm) j))
              = false.
Proof.
  assert (∃ b, mine_block Example.fresh 8 "1756548001.506169"
                 (certificate_data Example.uuid Example.issued_at Example.wind_farm)
               = Some b ∧ nonce b = 2 ∧ hash b = Example.issued_hash)
    as (b & Hm & Hn & Hh).
  { eexists. split; [vm_compute; reflexivity|]. split; reflexivity. }
  exists b. split; [exact Hm|]. split; [exact Hn|]. split; [exact Hh|].
  destruct (mine_block_least_nonce _ _ _ _ _ Hm) as (k & _ & _ & Hk & _ & Hleast & _).
  assert (k = 2%nat) as -> by lia. exact Hleast.
Defined.

(** ** The shape of a hash *)

Lemma hex_digit_is_hex n : 0 ≤ n < 16 → is_hex (SHA256.hex_digit n) = true.
Proof.
  intros Hn.
  assert (n ∈ [0; 1; 2; 3; 4; 5; 6; 7; 8; 9; 10; 11; 12; 13; 14; 15]) as Hin.
  { rewrite !elem_of_cons. lia. }
  rewrite !elem_of_cons, elem_of_nil in Hin.
  repeat (destruct Hin as [->|Hin]; [reflexivity|]). done.
Qed.

Lemma nibble_range x : 0 ≤ Z.land x 0xf < 16.
Proof.
  change 0xf with (Z.ones 4). rewrite Z.land_ones by lia.
  apply Z.mod_pos_bound. lia.
Qed.

Lemma hex_word_shape w :
  String.length (SHA256.hex_word w) = 8%nat ∧ all_hex (SHA256.hex_word w) = true.
Proof.
  split; [reflexivity|].
  unfold SHA256.hex_word. cbn [rev seq app map string_of_list_ascii all_hex].
  by rewrite !hex_digit_is_hex by apply nibble_range.
Qed.

Lemma string_app_shape a b :
  String.length (a +:+ b) = (String.length a + String.length b)%nat
  ∧ all_hex (a +:+ b) = all_hex a && all_hex b.
Proof.
  induction a as [|c a [IH1 IH2]]; [done|].
  change (String c a +:+ b) with (String c (a +:+ b)).
  cbn [String.length all_hex]. rewrite IH1, IH2.
  split; [done|]. by rewrite andb_assoc.
Qed.

Lemma round_length st kw : length st = 8%nat → length (SHA256.round st kw) = 8%nat.
Proof.
  intros Hlen. do 9 (destruct st as [|? st]; try done).
Qed.

Lemma compress_length h block :
  length h = 8%nat → length (SHA256.compress h block) = 8%nat.
Proof.
  intros Hlen. unfold SHA256.compress. rewrite length_zip_with.
  assert (∀ kws st, length st = 8%nat → length (fold_left SHA256.round kws st) = 8%nat)
    as Hfold.
  { induction kws as [|kw kws IH]; intros st Hst; [done|].
    cbn. by apply IH, round_length. }
  rewrite Hfold by done. lia.
Qed.

Lemma digest_length msg : length (SHA256.digest msg) = 8%nat.
Proof.
  unfold SHA256.digest.
  generalize (SHA256.blocks
                (length (SHA256.words (length (SHA256.pad msg)) (SHA256.pad msg)))
                (SHA256.words (length (SHA256.pad msg)) (SHA256.pad msg))).
  assert (length SHA256.H0 = 8%nat) as H0 by reflexivity.
  revert H0. generalize SHA256.H0.
  intros h Hh bs. revert h Hh. induction bs as [|b bs IH]; intros h Hh; [done|].
  cbn. by apply IH, compress_length.
Qed.

Lemma hexdigest_shape s :
  String.length (SHA256.hexdigest s) = 64%nat ∧ all_hex (SHA256.hexdigest s) = true.
Proof.
  unfold SHA256.hexdigest. pose proof (digest_length (SHA256.encode s)) as Hlen.
  revert Hlen. generalize (SHA256.digest (SHA256.encode s)). intros ws.
  assert (∀ ws : list Z,
            String.length (foldr (λ w acc, SHA256.hex_word w +:+ acc) EmptyString ws)
            = (8 * length ws)%nat
            ∧ all_hex (foldr (λ w acc, SHA256.hex_word w +:+ acc) EmptyString ws)
              = true) as Hall.
  { clear. induction ws as [|w ws [IH1 IH2]]; [done|].
    cbn [foldr length].
    destruct (string_app_shape (SHA256.hex_word w)
                (foldr (λ w acc, SHA256.hex_word w +:+ acc) EmptyString ws))
      as [-> ->].
    destruct (hex_word_shape w) as [-> ->]. rewrite IH1, IH2. split; [lia|done]. }
  intros Hlen. destruct (Hall ws) as [-> ->]. rewrite Hlen. done.
Qed.

Lemma leading_zeros_le h : (leading_zeros h ≤ String.length h)%nat.
Proof.
  induction h as [|c h IH]; [done|]. cbn. case_bool_decide; lia.
Qed.

Local Transparent calculate_hash.
Lemma calculate_hash_shape b :
  String.length (calculate_hash b) = 64%nat ∧ all_hex (calculate_hash b) = true.
Proof. apply hexdigest_shape. Qed.
Local Opaque calculate_hash.

(** X11. Whatever the block, [calculate_hash] returns 64 characters, each
    one of [0-9a-f]; so a hash starts with at most 64 zeros. *)
Theorem hash_is_64_hex (b : Block) :
  String.length (calculate_hash b) = 64%nat
  ∧ all_hex (calculate_hash b) = true
  ∧ (leading_zeros (calculate_hash b) ≤ 64)%nat.
Proof.
  destruct (calculate_hash_shape b) as [Hlen Hhex]. split_and!; [done..|].
  rewrite <-Hlen. apply leading_zeros_le.
Qed.

(** ** The difficulty at its edges *)

Lemma pow_ok_never d b :
  64 < d → hash b = calculate_hash b → pow_ok d (hash b) = false.
Proof.
  intros Hd Hh. apply not_true_is_false. intros Hpow%pow_ok_leading_zeros.
  pose proof (leading_zeros_le (hash b)) as Hle.
  rewrite Hh in Hle at 2. destruct (calculate_hash_shape b) as [Hlen _]. lia.
Qed.

Lemma mine_loop_never fuel d b :
  64 < d → hash b = calculate_hash b → mine_loop fuel d b = None.
Proof.
  intros Hd. revert b. induction fuel as [|fuel IH]; intros b Hh; cbn;
    rewrite (pow_ok_never d b Hd Hh); [done|].
  apply IH, next_nonce_hash.
Qed.

(** X12. With a difficulty above 64 no hash can pass the proof of work: on
    any ledger the loop of [mine_block] never ends, whatever the bound on
    its iterations, and so [issue_certificate] with a new identifier and
    [retire_certificate] of an active certificate never return. *)
Theorem difficulty_above_64_never_mines (s : GreenChain) (fuel : nat)
    (uuid now t h : string) (d payload : dict) (cid : jvalue) (ci : CertInfo) :
  64 < difficulty s →
  mine_block s fuel t payload = None
  ∧ (od_mem (JStr uuid) (certificates s) = false →
     issue_certificate s fuel uuid now t d = None)
  ∧ (find_by_hash h (certificates s) = Some (cid, ci) →
     cid ∉ retired_certificates s →
     retire_certificate s fuel now t h = None).
Proof.
  intros Hd.
  assert (∀ s', difficulty s' = difficulty s → ∀ p, mine_block s' fuel t p = None)
    as Hmine.
  { intros s' Hs' p. rewrite mine_block_candidate, Hs'.
    apply mine_loop_never; [done|]. exact (new_Block_hash _ _ _ _ _). }
  split_and!.
  - by apply Hmine.
  - intros Hfresh. unfold issue_certificate. by rewrite Hfresh, Hmine.
  - intros Hf Hactive. unfold retire_certificate. rewrite retire_loop_find, Hf.
    unfold retire_entry. rewrite bool_decide_eq_false_2 by done.
    by rewrite Hmine.
Qed.

Lemma difficulty_above_64_never_mines_witness :
  64 < difficulty Edge.hard
  ∧ ∀ fuel, issue_certificate Edge.hard fuel Example.uuid Example.issued_at
              "1756548001.506169" Example.wind_farm = None.
Proof.
  assert (64 < difficulty Edge.hard) as Hd by done.
  split; [exact Hd|]. intros fuel.
  apply (difficulty_above_64_never_mines Edge.hard fuel Example.uuid
           Example.issued_at "1756548001.506169" "" Example.wind_farm ∅ JNull
           (mkCertInfo "" 0 ∅ "") Hd).
  reflexivity.
Defined.

(** X13. With a difficulty of 0 or less every hash passes: [mine_block]
    returns the block of nonce 0 without iterating, whatever the payload. *)
Theorem difficulty_nonpositive_no_work (s : GreenChain) (fuel : nat) (t : string)
    (payload : dict) :
  difficulty s ≤ 0 →
  ∃ b, mine_block s fuel t payload = Some b
       ∧ b = candidate s t payload 0
       ∧ nonce b = 0.
Proof.
  intros Hd. eexists. split; [|done].
  rewrite mine_block_candidate.
  assert (∀ h, pow_ok (difficulty s) h = true) as Hpow.
  { intros h. apply pow_ok_leading_zeros. lia. }
  destruct fuel; cbn [mine_loop]; by rewrite Hpow.
Qed.

Lemma difficulty_nonpositive_no_work_witness :
  difficulty Edge.easy ≤ 0
  ∧ ∃ b, mine_block Edge.easy 0 "1756548001.506169" ∅ = Some b ∧ nonce b = 0.
Proof.
  assert (difficulty Edge.easy ≤ 0) as Hd by done.
  split; [exact Hd|].
  destruct (difficulty_nonpositive_no_work Edge.easy 0 "1756548001.506169" ∅ Hd)
    as (b & Hm & _ & Hn).
  exists b. split; [exact Hm|exact Hn].
Defined.

(** ** What validation lets through *)

(** X14. A block whose index is 0 is accepted wherever it stands. Take the
    file of a ledger reached by issue and retire calls, rewrite the index of
    any one block to 0 and replace its payload by any other, keeping the
    stored hash: the ledger reloaded from that file, at the same difficulty,
    still has [is_chain_valid] return true. *)
Theorem index_zero_escapes_validation (s : GreenChain) (doc : Document) (i : nat)
    (payload : dict) (now t : string) :
  reachable s →
  storage s = Some doc →
  is_chain_valid (GreenChain_init (difficulty s) (Some (forge payload i doc)) now t)
  = Ok true.
Proof.
  intros Hs Hst. destruct (reachable_wf s Hs) as [[Hg Hi Hh Hl] [_ _ Hdoc]].
  rewrite Hst in Hdoc. injection Hdoc as Hdoc.
  rewrite init_loaded.
  2:{ cbn. rewrite Hdoc. intros Hnil%(f_equal length).
      rewrite length_alter, length_fmap in Hnil.
      destruct Hg as [g Hg%lookup_lt_Some]. cbn in Hnil. lia. }
  set (s2 := mkGreenChain _ _ _ _ _).
  set (f := λ c : Block, block_of_dict (bd_forge payload (to_dict c))).
  assert (chain s2 = alter f i (chain s)) as Hchain.
  { cbn. rewrite Hdoc. apply list_eq. intros j.
    rewrite list_lookup_fmap. destruct (decide (i = j)) as [<-|Hne].
    - rewrite !list_lookup_alter_eq, list_lookup_fmap.
      by destruct (chain s !! i).
    - rewrite !list_lookup_alter_ne, list_lookup_fmap by done.
      destruct (chain s !! j) as [c|]; [|done]. cbn. by rewrite block_of_dict_to_dict. }
  assert (∀ j c, chain s2 !! j = Some c →
                 ∃ c0, chain s !! j = Some c0 ∧ hash c = hash c0
                       ∧ (c = c0 ∨ index c = 0)) as Hsame.
  { intros j c Hc. rewrite Hchain in Hc.
    destruct (decide (i = j)) as [<-|Hne].
    - rewrite list_lookup_alter_eq in Hc.
      destruct (chain s !! i) as [c0|]; [|done].
      change (Some (f c0) = Some c) in Hc. assert (c = f c0) as -> by congruence.
      exists c0. split_and!; [done|done|by right].
    - rewrite list_lookup_alter_ne in Hc by done. exists c. auto. }
  unfold is_chain_valid. apply all_valid_true.
  intros c [j Hc]%list_elem_of_lookup. rewrite lookup_drop in Hc.
  change (1 + j)%nat with (S j) in Hc.
  destruct (Hsame _ _ Hc) as (c0 & Hc0 & Hhc & [->|Hzero]).
  - destruct (lookup_lt_is_Some_2 (chain s2) j) as [q Hq].
    { apply lookup_lt_Some in Hc. lia. }
    destruct (Hsame _ _ Hq) as (q0 & Hq0 & Hhq & _).
    destruct (Hl _ _ _ Hq0 Hc0) as [Hprev Hpow].
    rewrite (is_valid_block_at s2 j c0 q Hq (Hi _ _ Hc0)).
    rewrite Hhq, !bool_decide_eq_true_2 by eauto. exact (f_equal Ok Hpow).
  - unfold is_valid_block. by rewrite Hzero.
Qed.

Lemma index_zero_escapes_validation_witness :
  reachable Example.retired
  ∧ ∃ doc b,
      storage Example.retired = Some doc
      ∧ chain (GreenChain_init 4 (Some (forge ∅ 1 doc)) "" "") !! 1%nat = Some b
      ∧ data b = ∅
      ∧ is_chain_valid (GreenChain_init 4 (Some (forge ∅ 1 doc)) "" "") = Ok true.
Proof.
  split; [apply example_retired_reachable|].
  eexists. eexists. split; [reflexivity|].
  split; [vm_compute; reflexivity|]. split; [reflexivity|].
  exact (index_zero_escapes_validation Example.retired _ 1 ∅ "" ""
           example_retired_reachable eq_refl).
Defined.

(** X15. [is_valid_block] raises instead of answering exactly when the index
    of the block is not 0 and lies below [1 - len(chain)]: the lookup
    [chain[index - 1]] then falls off the front of the list. The exception is
    an [IndexError], and [is_chain_valid] passes it on when the second block
    of the chain is such a block. *)
Theorem is_valid_block_raises (s : GreenChain) (b : Block) (e : exn) :
  (is_valid_block s b = Raise e
   ↔ e = IndexError ∧ index b ≠ 0 ∧ index b < 1 - Z.of_nat (length (chain s)))
  ∧ (chain s !! 1%nat = Some b →
     index b ≠ 0 → index b < 1 - Z.of_nat (length (chain s)) →
     is_chain_valid s = Raise IndexError).
Proof.
  assert (is_valid_block s b = Raise e
          ↔ e = IndexError ∧ index b ≠ 0
            ∧ index b < 1 - Z.of_nat (length (chain s))) as Hiff.
  { unfold is_valid_block.
    destruct (Z.eqb_spec (index b) 0) as [Hz|Hz].
    { split; [done|]. by intros (_ & ? & _). }
    rewrite Z.geb_leb.
    destruct (Z.leb_spec (Z.of_nat (length (chain s))) (index b - 1)) as [Hge|Hlt].
    { split; [done|]. intros (_ & _ & ?). lia. }
    unfold py_getitem.
    destruct (Z.ltb_spec (index b - 1) 0) as [Hneg|Hpos].
    - destruct (Z.leb_spec 0 (Z.of_nat (length (chain s)) + (index b - 1)))
        as [Hin|Hout].
      + destruct (lookup_lt_is_Some_2 (chain s)
                    (Z.to_nat (Z.of_nat (length (chain s)) + (index b - 1))))
          as [p ->]; [lia|].
        split; [|intros (_ & _ & ?); lia].
        repeat case_bool_decide; try done; by destruct (pow_ok _ _).
      + split; [intros [= <-]; split_and!; [done|done|lia]|by intros (-> & _)].
    - destruct (Z.leb_spec 0 (index b - 1)); [|lia].
      destruct (lookup_lt_is_Some_2 (chain s) (Z.to_nat (index b - 1)))
        as [p ->]; [lia|].
      split; [|intros (_ & _ & ?); lia].
      repeat case_bool_decide; try done; by destruct (pow_ok _ _). }
  split; [exact Hiff|].
  intros Hb Hz Hlt. unfold is_chain_valid.
  destruct (chain s) as [|g [|b' rest]] eqn:Hchain; [done..|].
  injection Hb as ->. cbn [drop all_valid].
  assert (is_valid_block s b = Raise IndexError) as ->; [|done].
  clear Hiff. unfold is_valid_block.
  destruct (Z.eqb_spec (index b) 0); [done|]. rewrite Hchain.
  rewrite Z.geb_leb.
  destruct (Z.leb_spec (Z.of_nat (length (g :: b :: rest))) (index b - 1)); [lia|].
  unfold py_getitem.
  destruct (Z.ltb_spec (index b - 1) 0); [|lia].
  destruct (Z.leb_spec 0 (Z.of_nat (length (g :: b :: rest)) + (index b - 1)));
    [lia|done].
Qed.

Lemma is_valid_block_raises_witness :
  (∃ b, chain Edge.negative_index !! 1%nat = Some b
        ∧ index b = -5
        ∧ is_valid_block Edge.negative_index b = Raise IndexError)
  ∧ is_chain_valid Edge.negative_index = Raise IndexError
  ∧ get_chain_info Edge.negative_index "" = Raise IndexError.
Proof.
  assert (is_chain_valid Edge.negative_index = Raise IndexError) as Hv.
  { eapply (is_valid_block_raises Edge.negative_index _ IndexError);
      [reflexivity|done|done]. }
  split; [|split; [exact Hv|]].
  - eexists. split; [reflexivity|]. split; [reflexivity|].
    apply (is_valid_block_raises Edge.negative_index). by split_and!.
  - unfold get_chain_info. by rewrite Hv.
Defined.

(** ** Import *)

Lemma rebuild_outcome s bs :
  chain (rebuild s bs).2 = chain s
  ∧ difficulty (rebuild s bs).2 = difficulty s
  ∧ storage (rebuild s bs).2 = storage s
  ∧ (rebuild s bs).1
    = if forallb (λ b, has_certificate_id (to_dict b)) bs
      then Ok () else Raise (KeyError "certificate_id").
Proof.
  revert s. induction bs as [|b bs IH]; intros s; [done|].
  cbn [rebuild forallb].
  assert (rebuild_step s b
          = (if has_certificate_id (to_dict b)
             then Ok () else Raise (KeyError "certificate_id"),
             (rebuild_step s b).2)
          ∧ chain (rebuild_step s b).2 = chain s
          ∧ difficulty (rebuild_step s b).2 = difficulty s
          ∧ storage (rebuild_step s b).2 = storage s) as (Hstep & Hc & Hd & Hst).
  { unfold rebuild_step, has_certificate_id. cbn [d_data to_dict].
    destruct (bool_decide (dict_get (data b) "type" = JStr "hydrogen_credit_certificate"));
      [|destruct (bool_decide (dict_get (data b) "type" = JStr "certificate_retirement"))];
      cbn [orb]; [| |done];
      (destruct (data b !! "certificate_id") as [cid|];
       [rewrite bool_decide_eq_true_2 by eauto
       |rewrite bool_decide_eq_false_2 by (by intros [? ?])]); cbn; try done.
    by destruct (od_mem cid (certificates s)). }
  rewrite Hstep. destruct (has_certificate_id (to_dict b)); cbn.
  - destruct (IH (rebuild_step s b).2) as (-> & -> & -> & ->). done.
  - done.
Qed.

(** X16. [import_chain] never validates what it imports. It returns true
    exactly when every imported block of type certificate or retirement has
    the key [certificate_id], whatever the hashes, links and proofs of work
    are; it then saves the result. When a block lacks the key it returns
    false after the chain has been replaced: the ledger is left with the
    imported blocks and partly rebuilt indices, and the file is not
    rewritten. *)
Theorem import_chain_outcome (f : GreenChain) (chain_data : list BlockDict) :
  (import_chain f chain_data).1 = forallb has_certificate_id chain_data
  ∧ chain (import_chain f chain_data).2 = map block_of_dict chain_data
  ∧ difficulty (import_chain f chain_data).2 = difficulty f
  ∧ storage (import_chain f chain_data).2
    = if forallb has_certificate_id chain_data
      then Some (mkDocument chain_data
                   (certificates (import_chain f chain_data).2)
                   (elements (retired_certificates (import_chain f chain_data).2)))
      else storage f.
Proof.
  unfold import_chain. cbn [chain set_chain set_certificates set_retired_certificates].
  set (s2 := set_retired_certificates ∅
               (set_certificates [] (set_chain (map block_of_dict chain_data) f))).
  destruct (rebuild_outcome s2 (map block_of_dict chain_data)) as (Hc & Hd & Hst & Hr).
  assert (forallb (λ b, has_certificate_id (to_dict b)) (map block_of_dict chain_data)
          = forallb has_certificate_id chain_data) as Hall.
  { clear. induction chain_data as [|bd l IH]; [done|].
    cbn [map forallb]. rewrite IH. by destruct bd. }
  rewrite Hall in Hr.
  destruct (rebuild s2 (map block_of_dict chain_data)) as [r s3].
  cbn [fst snd] in *. subst r.
  destruct (forallb has_certificate_id chain_data); cbn.
  - split_and!; [done..|]. rewrite Hc. cbn.
    do 2 f_equal. clear. induction chain_data as [|bd l IH]; [done|].
    cbn. rewrite IH. by destruct bd.
  - done.
Qed.

Lemma import_chain_outcome_witness :
  (∃ f', import_chain Example.fresh Edge.forged_export = (true, f')
         ∧ is_chain_valid f' = Ok false
         ∧ ∃ ci, od_lookup (JStr Example.uuid) (certificates f') = Some ci
                 ∧ dict_get (ci_data ci) "seller_id" = JInt 7)
  ∧ (∃ f', import_chain Example.fresh Edge.broken_export = (false, f')
           ∧ length (chain f') = 2%nat
           ∧ certificates f' = []
           ∧ storage f' = storage Example.fresh).
Proof.
  split.
  - pose proof (import_chain_outcome Example.fresh Edge.forged_export) as (Hok & _).
    destruct (import_chain Example.fresh Edge.forged_export) as [ok f'] eqn:Himp.
    exists f'. cbn in Hok. subst ok. split; [reflexivity|].
    assert (f' = (import_chain Example.fresh Edge.forged_export).2) as ->
      by by rewrite Himp.
    split; [vm_compute; reflexivity|].
    eexists. split; vm_compute; reflexivity.
  - pose proof (import_chain_outcome Example.fresh Edge.broken_export)
      as (Hok & _ & _ & Hst).
    destruct (import_chain Example.fresh Edge.broken_export) as [ok f'] eqn:Himp.
    exists f'. cbn in Hok, Hst. subst ok. split; [reflexivity|].
    split_and!; [| |exact Hst];
      (assert (f' = (import_chain Example.fresh Edge.broken_export).2) as ->
         by by rewrite Himp); vm_compute; reflexivity.
Defined.

(** ** Reset *)

(** X17. [reset_blockchain] leaves exactly the ledger that initialisation
    without a file builds at the same difficulty, and overwrites the file
    with the one-block document of that ledger: whatever was issued before,
    every hash is not found afterwards, in memory and in the ledger reloaded
    from the file. *)
Theorem reset_forgets_everything (s : GreenChain) (now t now' t' h : string) :
  reset_blockchain s now t = GreenChain_init (difficulty s) None now t
  ∧ reachable (reset_blockchain s now t)
  ∧ GreenChain_init (difficulty s) (storage (reset_blockchain s now t)) now' t'
    = reset_blockchain s now t
  ∧ verify_certificate (reset_blockchain s now t) h
    = Ok (false, error_dict "Certificate not found")
  ∧ get_certificate_status (reset_blockchain s now t) h = "not_found".
Proof.
  split_and!; [reflexivity|constructor| |reflexivity..].
  by apply (save_then_load_gen
              (set_chain [new_Block 0 (JFloat t) (genesis_data now) "0" 0]
                 (mkGreenChain [] (difficulty s) [] ∅ None)) now' t').
Qed.

(** ** The history of a certificate *)

Lemma payload_shape_cases d :
  payload_shape d →
  (∃ now, d = genesis_data now)
  ∨ (∃ uuid now d0, d = certificate_data uuid now d0)
  ∨ (∃ cid h now, d = retirement_data cid h now).
Proof.
  intros [now|uuid now d0|cid h now].
  - left. exists now. reflexivity.
  - right. left. exists uuid, now, d0. reflexivity.
  - right. right. exists cid, h, now. reflexivity.
Qed.

Lemma genesis_data_type now : dict_get (genesis_data now) "type" = JStr "genesis".
Proof. reflexivity. Qed.

Lemma certificate_data_issued_at uuid now d :
  certificate_data uuid now d !! "issued_at" = Some (JStr now).
Proof. reflexivity. Qed.

Lemma retirement_data_retired_at cid h now :
  retirement_data cid h now !! "retired_at" = Some (JStr now).
Proof. reflexivity. Qed.

Lemma retirement_data_get_id cid h now :
  dict_get (retirement_data cid h now) "certificate_id" = cid.
Proof. reflexivity. Qed.

Lemma retirement_loop_found cid bs :
  (∀ b, b ∈ bs → payload_shape (data b)) →
  cid ∈ retired_ids bs →
  ∃ b retired_at,
    b ∈ bs
    ∧ dict_get (data b) "type" = JStr "certificate_retirement"
    ∧ dict_get (data b) "certificate_id" = cid
    ∧ data b !! "retired_at" = Some retired_at
    ∧ retirement_loop cid bs = Ok [retired_entry b retired_at].
Proof.
  induction bs as [|b bs IH]; [by intros _ ?%elem_of_nil|].
  intros Hshape Hin.
  assert (∀ c, c ∈ bs → payload_shape (data c)) as Hshape'.
  { intros c Hc. apply Hshape. by right. }
  assert (cid ∈ retired_ids bs →
          ∃ c retired_at,
            c ∈ b :: bs
            ∧ dict_get (data c) "type" = JStr "certificate_retirement"
            ∧ dict_get (data c) "certificate_id" = cid
            ∧ data c !! "retired_at" = Some retired_at
            ∧ retirement_loop cid bs = Ok [retired_entry c retired_at]) as Htail.
  { intros Hcid. destruct (IH Hshape' Hcid) as (c & ra & Hc & Hrest).
    exists c, ra. split; [by right|done]. }
  unfold retired_ids in Hin. cbn [omap list_omap retirement_loop] in Hin |- *.
  fold (retired_ids bs) in Hin.
  destruct (payload_shape_cases _ (Hshape b ltac:(left)))
    as [[now Hd]|[(uuid & now & d0 & Hd)|(cid' & h & now & Hd)]];
    rewrite Hd in Hin |- *.
  - rewrite genesis_data_type in Hin |- *.
    rewrite bool_decide_eq_false_2 in Hin |- * by (intros [=]).
    cbn [andb]. by apply Htail.
  - rewrite certificate_data_type in Hin |- *.
    rewrite bool_decide_eq_false_2 in Hin |- * by (intros [=]).
    cbn [andb]. by apply Htail.
  - rewrite retirement_data_type, retirement_data_get_id in Hin |- *.
    rewrite (bool_decide_eq_true_2 (JStr _ = JStr _)) in Hin |- * by done.
    cbn [andb]. case_bool_decide as Heq.
    + subst cid'. rewrite retirement_data_retired_at.
      exists b, (JStr now). rewrite Hd.
      split_and!; [left|apply retirement_data_type|apply retirement_data_get_id
                  |apply retirement_data_retired_at|].
      unfold retired_entry. by rewrite Hd.
    + apply elem_of_cons in Hin as [->|Hin]; [done|]. by apply Htail.
Qed.

(** X18. On a ledger reached by issue and retire calls
    [get_certificate_history] never raises. For an identifier of the index it
    returns the issuance entry, made of the recorded hash, block index and
    issuance time, followed, when the certificate is retired, by the entry of
    its retirement block; for an identifier outside the index it returns the
    empty list. *)
Theorem certificate_history_reachable (s : GreenChain) (cid : jvalue) :
  reachable s →
  match od_lookup cid (certificates s) with
  | None => get_certificate_history s cid = Ok []
  | Some ci =>
      ∃ issued_at,
        ci_data ci !! "issued_at" = Some issued_at
        ∧ if bool_decide (cid ∈ retired_certificates s)
          then ∃ b retired_at,
                 b ∈ chain s
                 ∧ dict_get (data b) "type" = JStr "certificate_retirement"
                 ∧ dict_get (data b) "certificate_id" = cid
                 ∧ data b !! "retired_at" = Some retired_at
                 ∧ get_certificate_history s cid
                   = Ok [issued_entry ci issued_at; retired_entry b retired_at]
          else get_certificate_history s cid = Ok [issued_entry ci issued_at]
  end.
Proof.
  intros Hs. destruct (reachable_log_wf s Hs) as [Hshape _ _ Hret _ _ Hpts].
  unfold get_certificate_history.
  destruct (od_lookup cid (certificates s)) as [ci|] eqn:Hl; [|done].
  destruct (Hpts _ _ (od_lookup_Some_elem _ _ _ Hl))
    as (i & b & Hb & _ & _ & Hd & Hty & _).
  assert (∃ now, ci_data ci !! "issued_at" = Some (JStr now)) as [now Hnow].
  { rewrite <-Hd.
    destruct (payload_shape_cases _ (Hshape _ _ Hb))
      as [[now Hg]|[(uuid & now & d0 & Hc)|(cid' & h & now & Hr)]].
    - rewrite Hg, genesis_data_type in Hty. discriminate Hty.
    - exists now. rewrite Hc. apply certificate_data_issued_at.
    - rewrite Hr, retirement_data_type in Hty. discriminate Hty. }
  exists (JStr now). split; [exact Hnow|]. rewrite Hnow.
  case_bool_decide as Hr; [|done].
  destruct (retirement_loop_found cid (chain s)) as (c & ra & Hc & Hct & Hci & Hra & Hloop).
  { intros c [j Hc]%list_elem_of_lookup. eauto. }
  { rewrite <-Hret in Hr. by apply elem_of_list_to_set in Hr. }
  exists c, ra. rewrite Hloop. done.
Qed.

Lemma certificate_history_reachable_witness :
  reachable Example.retired
  ∧ ∃ ci b issued_at retired_at,
      od_lookup (JStr Example.uuid) (certificates Example.retired) = Some ci
      ∧ b ∈ chain Example.retired
      ∧ get_certificate_history Example.retired (JStr Example.uuid)
        = Ok [issued_entry ci issued_at; retired_entry b retired_at].
Proof.
  split; [apply example_retired_reachable|].
  pose proof (certificate_history_reachable Example.retired (JStr Example.uuid)
                example_retired_reachable) as Hhist.
  destruct (od_lookup (JStr Example.uuid) (certificates Example.retired))
    as [ci|] eqn:Hl; [|vm_compute in Hl; discriminate Hl].
  destruct Hhist as (issued_at & _ & Hhist).
  destruct (bool_decide (JStr Example.uuid ∈ retired_certificates Example.retired))
    eqn:Hr; [|vm_compute in Hr; discriminate Hr].
  destruct Hhist as (b & retired_at & Hb & _ & _ & _ & Hhist).
  exists ci, b, issued_at, retired_at. split; [reflexivity|]. split; [exact Hb|exact Hhist].
Defined.

(** * Further properties of the event bus *)

Lemma last_n_all {A} (k : nat) (l : list A) :
  (length l ≤ k)%nat → RealTime.last_n k l = l.
Proof.
  intros Hle. unfold RealTime.last_n.
  by replace (length l - k)%nat with 0%nat by lia.
Qed.

Lemma last_n_length {A} (k : nat) (l : list A) :
  length (RealTime.last_n k l) = Nat.min k (length l).
Proof. unfold RealTime.last_n. rewrite length_drop. lia. Qed.

Lemma last_n_last_n_app {A} (k : nat) (l l' : list A) :
  RealTime.last_n k (RealTime.last_n k l ++ l') = RealTime.last_n k (l ++ l').
Proof.
  unfold RealTime.last_n at 2.
  rewrite <-drop_app_le by lia.
  unfold RealTime.last_n. rewrite drop_drop, length_drop, !length_app.
  f_equal. lia.
Qed.

Lemma broadcast_event_last_n now event events :
  RealTime.broadcast_event now event events
  = RealTime.last_n 1000 (events ++ [RealTime.mkEventRecord now event]).
Proof.
  unfold RealTime.broadcast_event.
  destruct (Z.ltb_spec 1000 (Z.of_nat (length (events ++ [RealTime.mkEventRecord now event]))))
    as [Hlt|Hge].
  - unfold py_slice_from, RealTime.last_n. cbn [Z.ltb Z.compare Z.opp].
    f_equal. lia.
  - rewrite last_n_all; [done|lia].
Qed.

(** X19. [_broadcast_event] keeps the 1000 most recent records: after a
    delivered event the history is the previous history followed by the new
    record, cut to its last 1000 entries; it never holds more than 1000
    entries, and its last entry is the event just dispatched. *)
Theorem history_keeps_last_1000 (now : string) (event : RealTime.Event)
    (events : list RealTime.EventRecord) :
  RealTime.broadcast_event now event events
  = RealTime.last_n 1000 (events ++ [RealTime.mkEventRecord now event])
  ∧ length (RealTime.broadcast_event now event events)
    = Nat.min 1000 (S (length events))
  ∧ last (RealTime.broadcast_event now event events)
    = Some (RealTime.mkEventRecord now event).
Proof.
  rewrite broadcast_event_last_n. split_and!; [done| |].
  - rewrite last_n_length, length_app. cbn [length]. lia.
  - unfold RealTime.last_n.
    rewrite last_lookup, lookup_drop, length_drop, length_app. cbn [length].
    match goal with |- _ !! ?i = _ => replace i with (length events) by lia end.
    by rewrite list_lookup_middle.
Qed.

Lemma process_events_spec turns st :
  (length (Bus.blockchain_events st) ≤ 1000)%nat →
  Bus.event_queue (Bus.process_events turns st)
  = drop (length turns) (Bus.event_queue st)
  ∧ Bus.blockchain_events (Bus.process_events turns st)
    = RealTime.last_n 1000
        (Bus.blockchain_events st
         ++ Bus.delivered_records turns (Bus.event_queue st)).
Proof.
  revert st. induction turns as [|[now delivered] turns IH]; intros st Hlen.
  - cbn. rewrite app_nil_r, last_n_all by done. by rewrite drop_0.
  - cbn [Bus.process_events length].
    unfold Bus.process_events_step at 1 2.
    destruct (Bus.event_queue st) as [|event rest] eqn:Hq.
    + destruct (IH st Hlen) as [-> ->]. rewrite Hq, !drop_nil.
      split; [done|]. cbn. by destruct turns as [|[] ?].
    + destruct (IH (Bus.mkState rest
                      (if delivered
                       then RealTime.broadcast_event now event (Bus.blockchain_events st)
                       else Bus.blockchain_events st))) as [-> ->].
      { cbn. destruct delivered; [|done].
        rewrite broadcast_event_last_n, last_n_length. lia. }
      cbn [Bus.event_queue Bus.blockchain_events Bus.delivered_records drop].
      split; [done|]. destruct delivered; cbn [app].
      * by rewrite broadcast_event_last_n, last_n_last_n_app, <-app_assoc.
      * done.
Qed.

(** X20. Events are dispatched in the order they were enqueued. Starting
    from a history of at most 1000 records, after any number of turns of the
    dispatcher the queue has lost its first events, one per turn, and the
    history is the previous history followed by the records of those events,
    in queue order and without the ones that [socketio.emit] failed on, cut
    to its last 1000 entries. An emit only adds its event at the back of the
    queue. *)
Theorem dispatch_in_queue_order (turns : list (string * bool)) (st : Bus.State)
    (certificate_data : dict) (blockchain_hash now : string) :
  (length (Bus.blockchain_events st) ≤ 1000)%nat →
  Bus.event_queue (Bus.process_events turns st)
  = drop (length turns) (Bus.event_queue st)
  ∧ Bus.blockchain_events (Bus.process_events turns st)
    = RealTime.last_n 1000
        (Bus.blockchain_events st
         ++ Bus.delivered_records turns (Bus.event_queue st))
  ∧ ∃ event,
      RealTime.ev_type event = JStr "certificate_issued"
      ∧ Bus.event_queue (Bus.emit_certificate_issued certificate_data blockchain_hash now st)
        = Bus.event_queue st ++ [event]
      ∧ Bus.blockchain_events
          (Bus.emit_certificate_issued certificate_data blockchain_hash now st)
        = Bus.blockchain_events st.
Proof.
  intros Hlen. destruct (process_events_spec turns st Hlen) as [Hq Hh].
  split_and!; [exact Hq|exact Hh|].
  eexists (RealTime.mkEvent _ _ _ _). split_and!; reflexivity.
Qed.

Lemma dispatch_in_queue_order_witness :
  let st := Bus.emit_blockchain_update ∅ "t2"
              (Bus.emit_certificate_retired ∅ "t1" "t1"
                 (Bus.emit_certificate_issued ∅ "h" "t0" (Bus.mkState [] []))) in
  (length (Bus.blockchain_events st) ≤ 1000)%nat
  ∧ Bus.event_queue (Bus.process_events [("a", true); ("b", false); ("c", true)] st) = []
  ∧ (λ r, (RealTime.er_timestamp r, RealTime.ev_type (RealTime.er_event r)))
    <$> Bus.blockchain_events
          (Bus.process_events [("a", true); ("b", false); ("c", true)] st)
    = [("a", JStr "certificate_issued"); ("c", JStr "blockchain_update")].
Proof.
  intros st. assert (length (Bus.blockchain_events st) ≤ 1000)%nat as Hlen.
  { cbn. lia. }
  split; [exact Hlen|].
  destruct (dispatch_in_queue_order [("a", true); ("b", false); ("c", true)] st
              ∅ "" "" Hlen) as (-> & -> & _).
  split; reflexivity.
Defined.

Lemma counts_snoc events event_record :
  Bus.get_event_type_counts (events ++ [event_record])
  = <[RealTime.ev_type (RealTime.er_event event_record) :=
        default 0 (Bus.get_event_type_counts events
                   !! RealTime.ev_type (RealTime.er_event event_record)) + 1]>
      (Bus.get_event_type_counts events).
Proof. unfold Bus.get_event_type_counts. by rewrite fold_left_app. Qed.

Lemma total_count_bump (counts : gmap jvalue Z) (k : jvalue) :
  Bus.total_count (<[k := default 0 (counts !! k) + 1]> counts)
  = Bus.total_count counts + 1.
Proof.
  unfold Bus.total_count.
  destruct (counts !! k) as [n|] eqn:Hk; cbn [default].
  - rewrite <-insert_delete_eq.
    rewrite map_fold_insert_L; [|intros; lia|by rewrite lookup_delete_eq].
    rewrite (map_fold_delete_L _ _ k n counts); [cbv beta delta [id]; lia|intros; lia|done].
  - rewrite map_fold_insert_L; [cbv beta delta [id]; lia|intros; lia|done].
Qed.

Lemma list_filter_sublist {A} (P : A → bool) (l : list A) :
  List.filter P l `sublist_of` l.
Proof.
  induction l as [|x l IH]; [done|]. cbn.
  destruct (P x); [by apply sublist_skip|by apply sublist_cons].
Qed.

(** X21. [_get_event_type_counts] counts every record of the history once:
    the counter of a type is the number of records of that type, a type with
    no record has no counter, and the counters of [get_live_statistics] add
    up to its [total_events]. *)
Theorem event_type_counts_exact (st : Bus.State) (connections : Z)
    (connected : bool) (event_type : jvalue) :
  let stats := Bus.get_live_statistics st connections connected in
  let n := Z.of_nat (length (List.filter
             (λ e, bool_decide (RealTime.ev_type (RealTime.er_event e) = event_type))
             (Bus.blockchain_events st))) in
  Bus.event_types stats !! event_type = (if n =? 0 then None else Some n)
  ∧ Bus.total_count (Bus.event_types stats) = Bus.total_events stats.
Proof.
  cbn zeta. cbn [Bus.get_live_statistics Bus.event_types Bus.total_events].
  generalize (Bus.blockchain_events st) as events. clear st.
  induction events as [|r events [IH1 IH2]] using rev_ind; [done|].
  rewrite counts_snoc. split.
  - rewrite List.filter_app, length_app.
    set (c := length (List.filter _ events)) in *.
    cbn [List.filter].
    destruct (decide (RealTime.ev_type (RealTime.er_event r) = event_type))
      as [Heq|Hne].
    + rewrite bool_decide_eq_true_2 by done. rewrite Heq, lookup_insert_eq, IH1.
      cbn [length].
      destruct (Z.eqb_spec (Z.of_nat c) 0);
        destruct (Z.eqb_spec (Z.of_nat (c + 1)) 0); try lia;
        cbn [default]; unfold id; f_equal; lia.
    + rewrite bool_decide_eq_false_2 by done. rewrite lookup_insert_ne by done.
      cbn [length]. rewrite Nat.add_0_r. exact IH1.
  - rewrite total_count_bump, IH2, length_app. cbn [length]. lia.
Qed.

(** X22. With a positive limit [get_event_history] returns at most [limit]
    records, all taken from the history in their order, and with a
    non-empty type filter only records of that type. *)
Theorem history_query_bounded (events : list RealTime.EventRecord)
    (event_type : option string) (limit : Z) :
  0 < limit →
  let result := RealTime.get_event_history events event_type limit in
  (length result ≤ Z.to_nat limit)%nat
  ∧ result `sublist_of` events
  ∧ ∀ r c s, r ∈ result → event_type = Some (String c s) →
      RealTime.ev_type (RealTime.er_event r) = JStr (String c s).
Proof.
  intros Hlimit. cbn zeta. rewrite get_event_history_positive by done.
  unfold RealTime.last_n. split_and!.
  - rewrite length_drop. lia.
  - etrans; [apply sublist_drop|].
    destruct event_type as [[|c s]|]; [done|apply list_filter_sublist|done].
  - intros r c s Hr ->. apply subseteq_drop, list_elem_of_In in Hr.
    apply List.filter_In in Hr as [_ Hr]. by apply bool_decide_eq_true in Hr.
Qed.

Lemma history_query_bounded_witness :
  0 < 1
  ∧ (length (RealTime.get_event_history
               [Example.event_issued; Example.event_retired]
               (Some "certificate_issued") 1) ≤ 1)%nat.
Proof.
  split; [lia|].
  exact (proj1 (history_query_bounded
                  [Example.event_issued; Example.event_retired]
                  (Some "certificate_issued") 1 ltac:(lia))).
Defined.
